(** * Status LED animations of the kabarga shield

    A shallow embedding of [config/boards/shields/kabarga/status_led.c]
    and the properties of its animation engine.

    The C file keeps its state in globals and talks to the outside
    through Zephyr calls ([led_set_brightness], [led_off], [k_msleep],
    [k_work_reschedule], [k_work_schedule_for_queue]).  Here the globals
    are the fields of [Store], and every outside call is an [Event]
    appended to the trace an operation returns, so an operation is a
    function [Store -> A * Store * list Event].

    C integers are values of [Z].  Division is [Z.quot], which truncates
    as C does.  The conversion of a brightness argument to [uint8_t] is
    written out in [set_individual_led_brightness]; durations are
    [uint32_t] values and repeat counts are [int] values, on which the
    code only divides and compares. *)

From Stdlib Require Import ZArith List Bool Lia Sorted.
Import ListNotations.
Open Scope Z_scope.

(** ** Constants of the source *)

Definition FADE_DURATION_PROFILE_MS : Z := 400.
Definition FADE_DURATION_BATTERY_MS : Z := 800.
Definition FADE_DURATION_USB_MS : Z := 400.
Definition FADE_DURATION_DISCONNECT_MS : Z := 300.
Definition BLINK_HOLD_DURATION_MS : Z := 100.

Definition LED_STATUS_ON : Z := 100.
Definition LED_STATUS_OFF : Z := 0.

Definition LED_FADE_STEPS : Z := 100.

(** [K_SECONDS(s)] and [K_NO_WAIT], as delays in milliseconds. *)
Definition K_SECONDS (s : Z) : Z := s * 1000.
Definition K_NO_WAIT : Z := 0.

(** ** Data *)

(** [typedef enum { LED_1, LED_2, LED_3, LED_4, LED_COUNT } LedType]. *)
Inductive LedType : Set := LED_1 | LED_2 | LED_3 | LED_4.

Definition LED_COUNT : Z := 4.

(** The enumerator's value, which is also the [.id] of
    [individual_leds[led]] and the index the C loops count with. *)
Definition led_id (led : LedType) : Z :=
  match led with LED_1 => 0 | LED_2 => 1 | LED_3 => 2 | LED_4 => 3 end.

(** The LEDs in the order [for (k = 0; k < LED_COUNT; k++)] visits them. *)
Definition all_leds : list LedType := [LED_1; LED_2; LED_3; LED_4].

Definition led_eqb (a b : LedType) : bool := led_id a =? led_id b.

(** The delayable work items the file defines. *)
Inductive Work : Set :=
| check_ble_conn_work
| usb_animation_work
| battery_animation_work
| ble_profile_work
| usb_conn_work.

(** Calls that leave the module. *)
Inductive Event : Set :=
| EvLedSetBrightness (led : LedType) (value : Z)
| EvLedOff (led : LedType)
| EvSleep (ms : Z)
| EvReschedule (w : Work) (delay_ms : Z)
| EvScheduleForQueue (w : Work) (delay_ms : Z).

(** The globals.  [led_brightness] is the [uint8_t led_brightness[LED_COUNT]]
    array, indexed by the enum.  [narrowing_lost] is a specification-only
    field that no operation reads: it records whether some brightness
    argument was changed by its conversion to [uint8_t]. *)
Record Store : Type := mkStore {
  is_connection_checking : bool;
  usb_conn_state : Z;
  profile_count_blink : Z;
  led_brightness : LedType -> Z;
  narrowing_lost : bool
}.

Definition upd (f : LedType -> Z) (led : LedType) (v : Z) : LedType -> Z :=
  fun l => if led_eqb l led then v else f l.

(** The state at program start:
    [is_connection_checking = false], [usb_conn_state = usb0],
    [profile_count_blink = 1], [led_brightness = {0}]. *)
Definition initial_store (usb0 : Z) : Store :=
  {| is_connection_checking := false;
     usb_conn_state := usb0;
     profile_count_blink := 1;
     led_brightness := fun _ => 0;
     narrowing_lost := false |}.

(** Conversion of an [int] to [uint8_t]. *)
Definition to_uint8 (x : Z) : Z := x mod 256.

(** ** Operations as state-and-trace functions *)

Definition M (A : Type) : Type := Store -> A * Store * list Event.

Definition ret {A : Type} (a : A) : M A := fun st => (a, st, []).

Definition bind {A B : Type} (m : M A) (f : A -> M B) : M B :=
  fun st =>
    let '(a, st1, t1) := m st in
    let '(b, st2, t2) := f a st1 in
    (b, st2, t1 ++ t2).

Notation "x <- m ;; k" := (bind m (fun x => k))
  (at level 61, m at next level, right associativity).
Notation "m ;; k" := (bind m (fun _ => k))
  (at level 61, right associativity).

Definition emit (e : Event) : M unit := fun st => (tt, st, [e]).

Definition store_of {A : Type} (r : A * Store * list Event) : Store := snd (fst r).
Definition trace_of {A : Type} (r : A * Store * list Event) : list Event := snd r.
Definition value_of {A : Type} (r : A * Store * list Event) : A := fst (fst r).

(** A C [for] loop whose body does not leave early, over the values the
    loop variable takes. *)
Fixpoint for_each {A : Type} (l : list A) (body : A -> M unit) : M unit :=
  match l with
  | [] => ret tt
  | x :: xs => body x ;; for_each xs body
  end.

(** [lo, lo+1, ..., hi], empty when [hi < lo]. *)
Definition range_up (lo hi : Z) : list Z :=
  map (fun n => lo + Z.of_nat n) (seq 0 (Z.to_nat (hi - lo + 1))).

(** [hi, hi-1, ..., lo]. *)
Definition range_down (hi lo : Z) : list Z := rev (range_up lo hi).

Definition k_msleep (ms : Z) : M unit := emit (EvSleep ms).

(** [set_individual_led_brightness(led, brightness)]: the argument is
    converted to the [uint8_t] parameter, sent to the driver and stored
    in the cache. *)
Definition set_individual_led_brightness (led : LedType) (brightness : Z) : M unit :=
  fun st =>
    let b := to_uint8 brightness in
    (tt,
     {| is_connection_checking := is_connection_checking st;
        usb_conn_state := usb_conn_state st;
        profile_count_blink := profile_count_blink st;
        led_brightness := upd (led_brightness st) led b;
        narrowing_lost := narrowing_lost st || negb (b =? brightness) |},
     [EvLedSetBrightness led b]).

(** [turn_off_all_leds]: [led_off] on every LED; the cache is not touched. *)
Definition turn_off_all_leds : M unit :=
  for_each all_leds (fun led => emit (EvLedOff led)).

Definition fade_in_led (led : LedType) (duration_ms : Z) : M unit :=
  let step_delay := duration_ms ÷ LED_FADE_STEPS in
  for_each (range_up 0 LED_FADE_STEPS) (fun i =>
    set_individual_led_brightness led (LED_STATUS_ON * i ÷ LED_FADE_STEPS) ;;
    k_msleep step_delay).

Definition get_led_brightness (led : LedType) : M Z :=
  fun st => (led_brightness st led, st, []).

Definition fade_out_all_leds (duration_ms : Z) : M unit :=
  let step_delay := duration_ms ÷ LED_FADE_STEPS in
  for_each (range_down LED_FADE_STEPS 0) (fun j =>
    for_each all_leds (fun i =>
      current_brightness <- get_led_brightness i ;;
      set_individual_led_brightness i (current_brightness * j ÷ LED_FADE_STEPS)) ;;
    k_msleep step_delay).

(** [led_mask & (1 << (LED_COUNT - 1 - k))]. *)
Definition in_mask (led_mask : Z) (k : LedType) : bool :=
  negb (Z.land led_mask (Z.shiftl 1 (LED_COUNT - 1 - led_id k)) =? 0).

Definition when (b : bool) (m : M unit) : M unit := if b then m else ret tt.

(** [led_mask] is the value of the [uint8_t] parameter; a [count] that is
    not positive gives no iteration. *)
Definition smooth_blink_leds (led_mask count duration_ms : Z) : M unit :=
  for_each (range_up 0 (count - 1)) (fun _ =>
    let step_delay := duration_ms ÷ (2 * LED_FADE_STEPS) in
    for_each (range_up 0 LED_FADE_STEPS) (fun j =>
      for_each all_leds (fun k =>
        when (in_mask led_mask k)
          (set_individual_led_brightness k (LED_STATUS_ON * j ÷ LED_FADE_STEPS))) ;;
      k_msleep step_delay) ;;
    k_msleep BLINK_HOLD_DURATION_MS ;;
    for_each (range_down LED_FADE_STEPS 0) (fun j =>
      for_each all_leds (fun k =>
        when (in_mask led_mask k)
          (current_brightness <- get_led_brightness k ;;
           set_individual_led_brightness k (current_brightness * j ÷ LED_FADE_STEPS))) ;;
      k_msleep step_delay) ;;
    k_msleep BLINK_HOLD_DURATION_MS).

(** ** Reading traces *)

(** The brightness values sent to one LED, in order. *)
Fixpoint writes_to (led : LedType) (tr : list Event) : list Z :=
  match tr with
  | [] => []
  | EvLedSetBrightness l v :: tr' =>
      if led_eqb l led then v :: writes_to led tr' else writes_to led tr'
  | _ :: tr' => writes_to led tr'
  end.

(** The driver calls that address one LED: a brightness value, or off. *)
Inductive HwWrite : Set := HwLevel (value : Z) | HwOff.

Fixpoint hw_writes (led : LedType) (tr : list Event) : list HwWrite :=
  match tr with
  | [] => []
  | EvLedSetBrightness l v :: tr' =>
      if led_eqb l led then HwLevel v :: hw_writes led tr' else hw_writes led tr'
  | EvLedOff l :: tr' =>
      if led_eqb l led then HwOff :: hw_writes led tr' else hw_writes led tr'
  | _ :: tr' => hw_writes led tr'
  end.

Definition is_led_write (e : Event) : Prop :=
  match e with
  | EvLedSetBrightness _ _ | EvLedOff _ => True
  | _ => False
  end.

Definition nondecreasing (l : list Z) : Prop := StronglySorted Z.le l.
Definition nonincreasing (l : list Z) : Prop := StronglySorted Z.ge l.

(** The level the hardware is left at by a driver call.
    Modelled from the spec: [led_off] belongs to the Zephyr LED driver,
    which is not part of this file; the spec calls it the off command
    ("zeroes all LEDs"), so it leaves the LED at [LED_STATUS_OFF]. *)
Definition hw_level (w : HwWrite) : Z :=
  match w with HwLevel v => v | HwOff => LED_STATUS_OFF end.

Fixpoint last_error {A : Type} (l : list A) : option A :=
  match l with
  | [] => None
  | [x] => Some x
  | _ :: l' => last_error l'
  end.

(** The most recent level written to the hardware of [led], if any. *)
Definition last_hw (led : LedType) (tr : list Event) : option Z :=
  option_map hw_level (last_error (hw_writes led tr)).

(** The cache agrees with the hardware on every LED that was written. *)
Definition coherent (tr : list Event) (st : Store) : Prop :=
  forall led v, last_hw led tr = Some v -> led_brightness st led = v.

(** Every cached brightness is a percentage. *)
Definition cache_bounded (st : Store) : Prop :=
  forall led, 0 <= led_brightness st led <= 100.

Definition write_in_range (e : Event) : Prop :=
  match e with
  | EvLedSetBrightness _ v => 0 <= v <= 100
  | _ => True
  end.

(** [n] animation steps: each is a group of LED writes followed by one
    sleep of [d] milliseconds. *)
Inductive stepped (d : Z) : nat -> list Event -> Prop :=
| stepped_O : stepped d 0 []
| stepped_S (n : nat) (ws tr : list Event) :
    Forall is_led_write ws ->
    stepped d n tr ->
    stepped d (S n) (ws ++ EvSleep d :: tr).

(** [n] blinks: a rising phase and a falling phase of [steps] steps each,
    every step followed by a sleep of [d], each phase followed by the hold. *)
Inductive blinks (d : Z) (steps : nat) : nat -> list Event -> Prop :=
| blinks_O : blinks d steps 0 []
| blinks_S (n : nat) (up down tr : list Event) :
    stepped d steps up ->
    stepped d steps down ->
    blinks d steps n tr ->
    blinks d steps (S n)
      (up ++ EvSleep BLINK_HOLD_DURATION_MS :: down ++ EvSleep BLINK_HOLD_DURATION_MS :: tr).

(** ** Work queue calls and scenario handlers *)

(** [k_work_reschedule(&w, delay)]. *)
Definition k_work_reschedule (w : Work) (delay_ms : Z) : M unit :=
  emit (EvReschedule w delay_ms).

(** [k_work_schedule_for_queue(&animation_work_q, &w, delay)]; the file
    has one queue. *)
Definition k_work_schedule_for_queue (w : Work) (delay_ms : Z) : M unit :=
  emit (EvScheduleForQueue w delay_ms).

Definition get_is_connection_checking : M bool :=
  fun st => (is_connection_checking st, st, []).

Definition set_is_connection_checking (b : bool) : M unit :=
  fun st =>
    (tt,
     {| is_connection_checking := b;
        usb_conn_state := usb_conn_state st;
        profile_count_blink := profile_count_blink st;
        led_brightness := led_brightness st;
        narrowing_lost := narrowing_lost st |},
     []).

Definition get_usb_conn_state : M Z := fun st => (usb_conn_state st, st, []).

Definition set_usb_conn_state (v : Z) : M unit :=
  fun st =>
    (tt,
     {| is_connection_checking := is_connection_checking st;
        usb_conn_state := v;
        profile_count_blink := profile_count_blink st;
        led_brightness := led_brightness st;
        narrowing_lost := narrowing_lost st |},
     []).

Definition get_profile_count_blink : M Z :=
  fun st => (profile_count_blink st, st, []).

Definition set_profile_count_blink (v : Z) : M unit :=
  fun st =>
    (tt,
     {| is_connection_checking := is_connection_checking st;
        usb_conn_state := usb_conn_state st;
        profile_count_blink := v;
        led_brightness := led_brightness st;
        narrowing_lost := narrowing_lost st |},
     []).

Section ConnectionCheck.

(** The enumerator [ZMK_USB_CONN_NONE] is declared in [zmk/usb.h],
    outside this file; the handler only compares with it. *)
Variable ZMK_USB_CONN_NONE : Z.

(** [ble_connected] is the answer of
    [zmk_ble_active_profile_is_connected()]. *)
Definition check_bluetooth_connection_handler (ble_connected : bool) : M unit :=
  checking <- get_is_connection_checking ;;
  if negb checking then ret tt
  else
    usb <- get_usb_conn_state ;;
    if ble_connected || negb (usb =? ZMK_USB_CONN_NONE) then
      set_is_connection_checking false
    else
      smooth_blink_leds 1 (* 0b0001 *) 1 FADE_DURATION_DISCONNECT_MS ;;
      k_work_reschedule check_ble_conn_work (K_SECONDS 4).

(** What the environment shows at one run of the handler: the BLE
    connectivity and the USB state last stored by
    [usb_connection_listener]. *)
Record Observation : Set := mkObservation {
  obs_ble_connected : bool;
  obs_usb_conn_state : Z
}.

Definition connectivity (o : Observation) : bool :=
  obs_ble_connected o || negb (obs_usb_conn_state o =? ZMK_USB_CONN_NONE).

(** One run of the work item: the USB state is what the listener stored,
    then the handler runs.  Nothing here sets the checking flag. *)
Definition check_tick (o : Observation) : M unit :=
  set_usb_conn_state (obs_usb_conn_state o) ;;
  check_bluetooth_connection_handler (obs_ble_connected o).

(** Successive runs of the handler, each with its observation and the
    trace it produced. *)
Inductive check_run : Store -> list (Observation * list Event) -> Store -> Prop :=
| check_run_done (st : Store) : check_run st [] st
| check_run_step (st st1 st2 : Store) (o : Observation) (tr : list Event)
                 (rest : list (Observation * list Event)) :
    check_tick o st = (tt, st1, tr) ->
    check_run st1 rest st2 ->
    check_run st ((o, tr) :: rest) st2.

(** The same runs, computed. *)
Fixpoint run_checks (obs : list Observation) (st : Store)
  : list (Observation * list Event) * Store :=
  match obs with
  | [] => ([], st)
  | o :: obs' =>
      let r := check_tick o st in
      let '(rest, st2) := run_checks obs' (store_of r) in
      ((o, trace_of r) :: rest, st2)
  end.

End ConnectionCheck.

(** [level] is the answer of [zmk_battery_state_of_charge()]. *)
Definition battery_animation_handler (level : Z) : M unit :=
  if level <=? 15 then
    smooth_blink_leds 8 (* 0b1000 *) 3 FADE_DURATION_BATTERY_MS
  else if level <=? 30 then
    smooth_blink_leds 8 (* 0b1000 *) 1 FADE_DURATION_BATTERY_MS
  else if level <=? 50 then
    smooth_blink_leds 12 (* 0b1100 *) 1 FADE_DURATION_BATTERY_MS
  else if level <=? 80 then
    smooth_blink_leds 14 (* 0b1110 *) 1 FADE_DURATION_BATTERY_MS
  else
    smooth_blink_leds 14 (* 0b1110 *) 3 FADE_DURATION_BATTERY_MS.

(** The battery table in the words of the specification: inclusive upper
    bounds in ascending order, the first that holds wins. *)
Definition battery_thresholds : list (Z * (Z * Z)) :=
  [(15, (8, 3)); (30, (8, 1)); (50, (12, 1)); (80, (14, 1))].

Definition battery_pattern (level : Z) : Z * Z :=
  match find (fun row => level <=? fst row) battery_thresholds with
  | Some row => snd row
  | None => (14, 3)
  end.

(** The mask argument of [smooth_blink_leds] is a [uint8_t]. *)
Definition ble_profile_handler : M unit :=
  profile <- get_profile_count_blink ;;
  smooth_blink_leds (to_uint8 (Z.shiftr 8 (* 0b1000 *) profile)) 1 FADE_DURATION_PROFILE_MS ;;
  checking <- get_is_connection_checking ;;
  when (negb checking)
    (set_is_connection_checking true ;;
     k_work_reschedule check_ble_conn_work (K_SECONDS 4)).

(** The payload of the profile-changed event; the struct is declared in
    [zmk/events/ble_active_profile_changed.h]. *)
Record zmk_ble_active_profile_changed : Set := mkProfileChanged {
  index : Z
}.

Inductive ListenerResult : Set := ZMK_EV_EVENT_BUBBLE.

(** [profile_ev] is the result of [as_zmk_ble_active_profile_changed(eh)]:
    [None] for the null pointer. *)
Definition ble_profile_listener (profile_ev : option zmk_ble_active_profile_changed)
  : M ListenerResult :=
  match profile_ev with
  | Some ev =>
      if index ev <=? 2 then
        set_profile_count_blink (index ev) ;;
        k_work_schedule_for_queue ble_profile_work K_NO_WAIT ;;
        ret ZMK_EV_EVENT_BUBBLE
      else ret ZMK_EV_EVENT_BUBBLE
  | None => ret ZMK_EV_EVENT_BUBBLE
  end.

(** The LED-writing operations, to speak of sequences of them. *)
Inductive LedOp : Set :=
| OpSetBrightness (led : LedType) (brightness : Z)
| OpFadeIn (led : LedType) (duration_ms : Z)
| OpFadeOutAll (duration_ms : Z)
| OpBlink (led_mask count duration_ms : Z)
| OpTurnOffAll.

Definition run_op (op : LedOp) : M unit :=
  match op with
  | OpSetBrightness led b => set_individual_led_brightness led b
  | OpFadeIn led d => fade_in_led led d
  | OpFadeOutAll d => fade_out_all_leds d
  | OpBlink m c d => smooth_blink_leds m c d
  | OpTurnOffAll => turn_off_all_leds
  end.

Definition run_ops (ops : list LedOp) : M unit := for_each ops run_op.

Definition updates_cache (op : LedOp) : bool :=
  match op with OpTurnOffAll => false | _ => true end.

(** The values a falling ramp sends to one LED whose cache holds [c]:
    at each step [j] the cached value is scaled by [j / LED_FADE_STEPS]
    and becomes the cache for the next step. *)
Fixpoint decay (c : Z) (js : list Z) : list Z :=
  match js with
  | [] => []
  | j :: js' => let v := c * j ÷ LED_FADE_STEPS in v :: decay v js'
  end.

(** One step of [fade_out_all_leds]'s outer loop, without the sleep. *)
Definition fade_out_step (j : Z) : M unit :=
  for_each all_leds (fun i =>
    current_brightness <- get_led_brightness i ;;
    set_individual_led_brightness i (current_brightness * j ÷ LED_FADE_STEPS)).

(** The pieces of [smooth_blink_leds]'s loop body, named for the proofs. *)
Definition blink_rise (led_mask step_delay : Z) : M unit :=
  for_each (range_up 0 LED_FADE_STEPS) (fun j =>
    for_each all_leds (fun k =>
      when (in_mask led_mask k)
        (set_individual_led_brightness k (LED_STATUS_ON * j ÷ LED_FADE_STEPS))) ;;
    k_msleep step_delay).

Definition blink_fall (led_mask step_delay : Z) : M unit :=
  for_each (range_down LED_FADE_STEPS 0) (fun j =>
    for_each all_leds (fun k =>
      when (in_mask led_mask k)
        (current_brightness <- get_led_brightness k ;;
         set_individual_led_brightness k (current_brightness * j ÷ LED_FADE_STEPS))) ;;
    k_msleep step_delay).

Definition blink_once (led_mask duration_ms : Z) : M unit :=
  let step_delay := duration_ms ÷ (2 * LED_FADE_STEPS) in
  blink_rise led_mask step_delay ;;
  k_msleep BLINK_HOLD_DURATION_MS ;;
  blink_fall led_mask step_delay ;;
  k_msleep BLINK_HOLD_DURATION_MS.

(** An operation that sends nothing to LED [k] and leaves its cache entry. *)
Definition silent_on (k : LedType) {A : Type} (m : M A) : Prop :=
  forall st,
    hw_writes k (trace_of (m st)) = [] /\
    led_brightness (store_of (m st)) k = led_brightness st k.

(** The first event of a trace that is not an LED write. *)
Fixpoint first_other (tr : list Event) : option Event :=
  match tr with
  | [] => None
  | EvLedSetBrightness _ _ :: tr' | EvLedOff _ :: tr' => first_other tr'
  | e :: _ => Some e
  end.

(** An operation that keeps every cached brightness a percentage, sends
    only percentages to the driver and passes no brightness argument that
    its conversion to [uint8_t] would change. *)
Definition keeps_percent {A : Type} (m : M A) : Prop :=
  forall st,
    cache_bounded st ->
    cache_bounded (store_of (m st)) /\
    Forall write_in_range (trace_of (m st)) /\
    narrowing_lost (store_of (m st)) = narrowing_lost st.

(** An operation after which the cache entry of every LED it wrote to is
    the level of its last write, and the entry of every other LED is
    unchanged. *)
Definition tracks_hw {A : Type} (m : M A) : Prop :=
  forall st led,
    match last_error (hw_writes led (trace_of (m st))) with
    | Some w => led_brightness (store_of (m st)) led = hw_level w
    | None => led_brightness (store_of (m st)) led = led_brightness st led
    end.

(** The events of the blink the disconnect check performs.  The rising
    phase first writes 0 to the masked LED, so they are the same from
    every store. *)
Definition disconnect_blink_trace : list Event :=
  trace_of (smooth_blink_leds 1 1 FADE_DURATION_DISCONNECT_MS (initial_store 0)).

(** The trace of a handler run that blinked and rearmed itself. *)
Definition blinked_and_rescheduled (tr : list Event) : Prop :=
  tr = disconnect_blink_trace ++ [EvReschedule check_ble_conn_work (K_SECONDS 4)].

(** All brightness writes of a trace go to [led]. *)
Definition writes_only_to (led : LedType) (tr : list Event) : Prop :=
  Forall (fun e => match e with
                   | EvLedSetBrightness l _ | EvLedOff l => l = led
                   | _ => True
                   end) tr.

(** The globals other than the brightness cache. *)
Definition flags (st : Store) : bool * Z * Z :=
  (is_connection_checking st, usb_conn_state st, profile_count_blink st).

(** An operation that leaves them alone. *)
Definition keeps_flags {A : Type} (m : M A) : Prop :=
  forall st, flags (store_of (m st)) = flags st.

Definition writes_only_to_b (led : LedType) (tr : list Event) : bool :=
  forallb (fun e => match e with
                    | EvLedSetBrightness l _ | EvLedOff l => led_eqb l led
                    | _ => true
                    end) tr.

(** A store in which the disconnect check is active and nothing is lit. *)
Definition checking_store (usb : Z) : Store :=
  {| is_connection_checking := true;
     usb_conn_state := usb;
     profile_count_blink := 1;
     led_brightness := fun _ => 0;
     narrowing_lost := false |}.

(** ** The rest of the file: USB handlers, start-up, triggers *)

(** The payload of the USB connection event; the struct is declared in
    [zmk/events/usb_conn_state_changed.h]. *)
Record zmk_usb_conn_state_changed : Set := mkUsbConnStateChanged {
  conn_state : Z
}.

(** [usb_ev] is the result of [as_zmk_usb_conn_state_changed(eh)]:
    [None] for the null pointer. *)
Definition usb_connection_listener (usb_ev : option zmk_usb_conn_state_changed)
  : M ListenerResult :=
  match usb_ev with
  | Some ev =>
      set_usb_conn_state (conn_state ev) ;;
      k_work_schedule_for_queue usb_conn_work K_NO_WAIT ;;
      ret ZMK_EV_EVENT_BUBBLE
  | None => ret ZMK_EV_EVENT_BUBBLE
  end.

Section UsbHandlers.

(** The enumerators [ZMK_USB_CONN_POWERED] ([zmk/usb.h]) and
    [USB_DC_SUSPEND] (Zephyr's USB device controller header) are declared
    outside this file; the handlers only compare with them. *)
Variable ZMK_USB_CONN_POWERED : Z.
Variable USB_DC_SUSPEND : Z.

(** [DISABLE_LED_SLEEP_PC] is defined in the file, so the suspend test is
    compiled in. *)
Definition usb_animation_handler : M unit :=
  usb <- get_usb_conn_state ;;
  if usb =? USB_DC_SUSPEND then
    fade_out_all_leds FADE_DURATION_DISCONNECT_MS
  else
    for_each all_leds (fun i =>
      fade_in_led i FADE_DURATION_USB_MS ;;
      k_msleep BLINK_HOLD_DURATION_MS) ;;
    k_msleep BLINK_HOLD_DURATION_MS ;;
    fade_out_all_leds FADE_DURATION_USB_MS.

Definition usb_connection_handler : M unit :=
  usb <- get_usb_conn_state ;;
  if usb =? ZMK_USB_CONN_POWERED then
    k_work_schedule_for_queue usb_animation_work K_NO_WAIT
  else
    set_is_connection_checking true ;;
    k_work_reschedule check_ble_conn_work (K_SECONDS 4).

End UsbHandlers.

Definition show_battery : M unit :=
  k_work_schedule_for_queue battery_animation_work K_NO_WAIT.

Definition hide_battery : M unit := ret tt.

Definition ANIMATION_WORK_Q_PRIORITY : Z := 5.

(** The calls of [initialize_leds]: those of the other operations, and
    the two that set up the work queue.  The queue, its stack and the
    stack size are Zephyr objects; of [k_work_queue_start] the event keeps
    the priority. *)
Inductive InitEvent : Set :=
| InitCall (e : Event)
| EvWorkQueueInit
| EvWorkQueueStart (priority : Z).

(** [initialize_leds]: returns 0. *)
Definition initialize_leds (st : Store) : Z * Store * list InitEvent :=
  let off := turn_off_all_leds st in
  let sched :=
    k_work_schedule_for_queue battery_animation_work (K_SECONDS 1) (store_of off) in
  (0,
   store_of sched,
   map InitCall (trace_of off)
   ++ [EvWorkQueueInit; EvWorkQueueStart ANIMATION_WORK_Q_PRIORITY]
   ++ map InitCall (trace_of sched)).

(** The calls of a start-up trace that the other operations share. *)
Fixpoint init_calls (tr : list InitEvent) : list Event :=
  match tr with
  | [] => []
  | InitCall e :: tr' => e :: init_calls tr'
  | _ :: tr' => init_calls tr'
  end.

(** ** What runs after start-up *)

(** One thing the module does at a time: a listener receiving an event, a
    work item running on the animation queue (with the answers of the
    queries it makes), or one of the two public triggers. *)
Inductive Activity : Set :=
| ProfileEvent (ev : option zmk_ble_active_profile_changed)
| UsbEvent (ev : option zmk_usb_conn_state_changed)
| RunBleProfileWork
| RunUsbConnWork
| RunUsbAnimationWork
| RunBatteryAnimationWork (level : Z)
| RunCheckBleConnWork (ble_connected : bool)
| ShowBattery
| HideBattery.

Section Activities.

Variable ZMK_USB_CONN_NONE : Z.
Variable ZMK_USB_CONN_POWERED : Z.
Variable USB_DC_SUSPEND : Z.

Definition run_activity (a : Activity) : M unit :=
  match a with
  | ProfileEvent ev => ble_profile_listener ev ;; ret tt
  | UsbEvent ev => usb_connection_listener ev ;; ret tt
  | RunBleProfileWork => ble_profile_handler
  | RunUsbConnWork => usb_connection_handler ZMK_USB_CONN_POWERED
  | RunUsbAnimationWork => usb_animation_handler USB_DC_SUSPEND
  | RunBatteryAnimationWork level => battery_animation_handler level
  | RunCheckBleConnWork ble => check_bluetooth_connection_handler ZMK_USB_CONN_NONE ble
  | ShowBattery => show_battery
  | HideBattery => hide_battery
  end.

Definition run_activities (l : list Activity) : M unit := for_each l run_activity.

End Activities.

(** ** Notions for the further properties *)

(** Every LED is cached as dark. *)
Definition all_dark (st : Store) : Prop :=
  forall led, led_brightness st led = LED_STATUS_OFF.

(** Every LED has been written, and its cache entry is the level last
    written to its hardware. *)
Definition in_sync (tr : list Event) (st : Store) : Prop :=
  forall led, last_hw led tr = Some (led_brightness st led).

(** The milliseconds a trace spends in [k_msleep]. *)
Fixpoint total_sleep (tr : list Event) : Z :=
  match tr with
  | [] => 0
  | EvSleep ms :: tr' => ms + total_sleep tr'
  | _ :: tr' => total_sleep tr'
  end.

(** One step of the rising and of the falling phase of a blink, without
    the sleep. *)
Definition rise_step (led_mask j : Z) : M unit :=
  for_each all_leds (fun k =>
    when (in_mask led_mask k)
      (set_individual_led_brightness k (LED_STATUS_ON * j ÷ LED_FADE_STEPS))).

Definition fall_step (led_mask j : Z) : M unit :=
  for_each all_leds (fun k =>
    when (in_mask led_mask k)
      (current_brightness <- get_led_brightness k ;;
       set_individual_led_brightness k (current_brightness * j ÷ LED_FADE_STEPS))).

(** The values one blink sends to each LED of its mask: the rising ramp,
    then the falling ramp from 100. *)
Definition blink_values : list Z :=
  range_up 0 LED_FADE_STEPS ++ decay LED_STATUS_ON (range_down LED_FADE_STEPS 0).

(** An event that is neither a driver call nor a sleep. *)
Definition no_led_event (e : Event) : Prop :=
  match e with
  | EvLedSetBrightness _ _ | EvLedOff _ | EvSleep _ => False
  | _ => True
  end.

(** A store in which every LED is cached at full brightness. *)
Definition lit_store : Store :=
  {| is_connection_checking := false;
     usb_conn_state := 0;
     profile_count_blink := 1;
     led_brightness := fun _ => LED_STATUS_ON;
     narrowing_lost := false |}.

(** An operation that keeps dark LEDs dark. *)
Definition keeps_dark {A : Type} (m : M A) : Prop :=
  forall st, all_dark st -> all_dark (store_of (m st)).

(** An operation that neither writes an LED nor sleeps, and leaves the
    brightness cache alone. *)
Definition quiet {A : Type} (m : M A) : Prop :=
  forall st,
    led_brightness (store_of (m st)) = led_brightness st /\
    narrowing_lost (store_of (m st)) = narrowing_lost st /\
    Forall no_led_event (trace_of (m st)).

(** The animation branch of [usb_animation_handler], named for the
    proofs. *)
Definition usb_animation : M unit :=
  for_each all_leds (fun i =>
    fade_in_led i FADE_DURATION_USB_MS ;;
    k_msleep BLINK_HOLD_DURATION_MS) ;;
  k_msleep BLINK_HOLD_DURATION_MS ;;
  fade_out_all_leds FADE_DURATION_USB_MS.

(** Its events; every LED is written before it is read, so they are the
    same from every store. *)
Definition usb_animation_trace : list Event :=
  trace_of (usb_animation (initial_store 0)).

(** The mask [ble_profile_handler] passes for a stored profile index. *)
Definition profile_mask (profile : Z) : Z := to_uint8 (Z.shiftr 8 profile).

(** The number of [k_work_reschedule] calls in a trace. *)
Fixpoint count_reschedules (tr : list Event) : nat :=
  match tr with
  | [] => 0
  | EvReschedule _ _ :: tr' => S (count_reschedules tr')
  | _ :: tr' => count_reschedules tr'
  end.

(** An operation that ends with every LED dark, in the cache and on the
    hardware. *)
Definition ends_dark {A : Type} (m : M A) : Prop :=
  forall st led,
    led_brightness (store_of (m st)) led = LED_STATUS_OFF /\
    last_hw led (trace_of (m st)) = Some LED_STATUS_OFF.

(** An activity that can write to LED index 3: the disconnect check and
    the USB animation. *)
Definition may_use_last_led (a : Activity) : bool :=
  match a with
  | RunCheckBleConnWork _ | RunUsbAnimationWork => true
  | _ => false
  end.

(** A profile event as the event bus can deliver it: the index is a
    [uint8_t]. *)
Definition event_well_formed (a : Activity) : Prop :=
  match a with
  | ProfileEvent (Some ev) => 0 <= index ev <= 255
  | _ => True
  end.

(** ** Steps and blinks, event by event *)

(** A group of driver calls that sets the brightness of each LED of
    [leds] exactly once, in that order. *)
Definition one_write_each (leds : list LedType) (ws : list Event) : Prop :=
  Forall2 (fun led e => exists v, e = EvLedSetBrightness led v) leds ws.

(** [n] animation steps on the LEDs [leds]: each step sets the brightness
    of every LED of [leds] once and then sleeps [d] milliseconds. *)
Inductive stepped_on (leds : list LedType) (d : Z) : nat -> list Event -> Prop :=
| stepped_on_O : stepped_on leds d 0 []
| stepped_on_S (n : nat) (ws tr : list Event) :
    one_write_each leds ws ->
    stepped_on leds d n tr ->
    stepped_on leds d (S n) (ws ++ EvSleep d :: tr).

(** [n] blinks on the LEDs [leds]: a rising and a falling phase of [steps]
    such steps, each phase followed by the hold. *)
Inductive blinks_on (leds : list LedType) (d : Z) (steps : nat) : nat -> list Event -> Prop :=
| blinks_on_O : blinks_on leds d steps 0 []
| blinks_on_S (n : nat) (up down tr : list Event) :
    stepped_on leds d steps up ->
    stepped_on leds d steps down ->
    blinks_on leds d steps n tr ->
    blinks_on leds d steps (S n)
      (up ++ EvSleep BLINK_HOLD_DURATION_MS :: down ++ EvSleep BLINK_HOLD_DURATION_MS :: tr).

(** The events of a ramp on one LED: each value is written and followed
    by a sleep of [d] milliseconds. *)
Definition ramp (led : LedType) (d : Z) (values : list Z) : list Event :=
  flat_map (fun v => [EvLedSetBrightness led v; EvSleep d]) values.

(** One blink of a single LED, written out: the values 0, 1, ..., 100,
    the hold of 100 ms, the values obtained from 100 by scaling with
    100/100, 99/100, ..., 0/100 in turn, and the hold again. *)
Definition single_led_blink (led : LedType) (d : Z) : list Event :=
  ramp led d (map Z.of_nat (seq 0 101))
  ++ EvSleep 100
  :: ramp led d (decay 100 (rev (map Z.of_nat (seq 0 101))))
  ++ [EvSleep 100].

(** ** Basic facts about the monad and the loops *)

Lemma trace_bind {A B : Type} (m : M A) (f : A -> M B) (st : Store) :
  trace_of (bind m f st) =
  trace_of (m st) ++ trace_of (f (value_of (m st)) (store_of (m st))).
Proof.
  unfold bind, trace_of, store_of, value_of.
  destruct (m st) as [[a st1] t1]; simpl.
  destruct (f a st1) as [[b st2] t2]; reflexivity.
Qed.

Lemma store_bind {A B : Type} (m : M A) (f : A -> M B) (st : Store) :
  store_of (bind m f st) = store_of (f (value_of (m st)) (store_of (m st))).
Proof.
  unfold bind, trace_of, store_of, value_of.
  destruct (m st) as [[a st1] t1]; simpl.
  destruct (f a st1) as [[b st2] t2]; reflexivity.
Qed.

Lemma for_each_cons {A : Type} (x : A) (xs : list A) (body : A -> M unit) :
  for_each (x :: xs) body = (body x ;; for_each xs body).
Proof. reflexivity. Qed.

Lemma trace_for_each_cons {A : Type} (x : A) (xs : list A) (body : A -> M unit) st :
  trace_of (for_each (x :: xs) body st) =
  trace_of (body x st) ++ trace_of (for_each xs body (store_of (body x st))).
Proof. rewrite for_each_cons, trace_bind; reflexivity. Qed.

Lemma store_for_each_cons {A : Type} (x : A) (xs : list A) (body : A -> M unit) st :
  store_of (for_each (x :: xs) body st) =
  store_of (for_each xs body (store_of (body x st))).
Proof. rewrite for_each_cons, store_bind; reflexivity. Qed.

(** A loop whose body emits a trace that does not depend on the store. *)
Lemma trace_for_each_const {A : Type} (f : A -> list Event) (body : A -> M unit) :
  (forall x st, trace_of (body x st) = f x) ->
  forall l st, trace_of (for_each l body st) = flat_map f l.
Proof.
  intros Hb l; induction l as [|x xs IH]; intro st.
  - reflexivity.
  - rewrite trace_for_each_cons, Hb, IH; reflexivity.
Qed.

(** A loop invariant carried through [for_each]. *)
Lemma for_each_invariant {A : Type} (P : Store -> Prop) (body : A -> M unit) (l : list A) :
  (forall x st, In x l -> P st -> P (store_of (body x st))) ->
  forall st, P st -> P (store_of (for_each l body st)).
Proof.
  induction l as [|x xs IH]; intros Hb st HP.
  - exact HP.
  - rewrite store_for_each_cons. apply IH.
    + intros y st' Hy; apply Hb; right; exact Hy.
    + apply Hb; [left; reflexivity | exact HP].
Qed.

Lemma writes_to_app led (a b : list Event) :
  writes_to led (a ++ b) = writes_to led a ++ writes_to led b.
Proof.
  induction a as [|e a IH]; [reflexivity|].
  destruct e; simpl; try exact IH.
  destruct (led_eqb led0 led); simpl; rewrite IH; reflexivity.
Qed.

Lemma hw_writes_app led (a b : list Event) :
  hw_writes led (a ++ b) = hw_writes led a ++ hw_writes led b.
Proof.
  induction a as [|e a IH]; [reflexivity|].
  destruct e; simpl; try exact IH;
    destruct (led_eqb led0 led); simpl; rewrite IH; reflexivity.
Qed.

Lemma led_eqb_refl led : led_eqb led led = true.
Proof. destruct led; reflexivity. Qed.

Lemma led_eqb_eq a b : led_eqb a b = true <-> a = b.
Proof. destruct a, b; simpl; split; intro H; try reflexivity; discriminate. Qed.

Lemma range_up_length lo hi : length (range_up lo hi) = Z.to_nat (hi - lo + 1).
Proof. unfold range_up. rewrite length_map, length_seq. reflexivity. Qed.

Lemma range_up_nth lo hi (i : nat) :
  (i < Z.to_nat (hi - lo + 1))%nat ->
  nth_error (range_up lo hi) i = Some (lo + Z.of_nat i).
Proof.
  intro Hi. unfold range_up.
  rewrite nth_error_map, nth_error_seq.
  destruct (Nat.ltb_spec i (Z.to_nat (hi - lo + 1))); [reflexivity | lia].
Qed.

Lemma range_up_In lo hi x : In x (range_up lo hi) -> lo <= x <= hi.
Proof.
  unfold range_up. rewrite in_map_iff. intros [n [<- Hn]].
  apply in_seq in Hn. lia.
Qed.

Lemma range_down_In hi lo x : In x (range_down hi lo) -> lo <= x <= hi.
Proof. unfold range_down. rewrite <- in_rev. apply range_up_In. Qed.

(** ** fade_in_led *)

Lemma trace_fade_in_led led D st :
  trace_of (fade_in_led led D st) =
  flat_map (fun i => [EvLedSetBrightness led (to_uint8 (LED_STATUS_ON * i ÷ LED_FADE_STEPS));
                      EvSleep (D ÷ LED_FADE_STEPS)])
           (range_up 0 LED_FADE_STEPS).
Proof.
  unfold fade_in_led. apply trace_for_each_const. reflexivity.
Qed.

Lemma writes_to_fade_steps led d (f : Z -> Z) l :
  writes_to led (flat_map (fun i => [EvLedSetBrightness led (f i); EvSleep d]) l) = map f l.
Proof.
  induction l as [|x xs IH]; [reflexivity|].
  simpl. rewrite led_eqb_refl, IH. reflexivity.
Qed.

Lemma fade_in_value i :
  0 <= i <= LED_FADE_STEPS ->
  to_uint8 (LED_STATUS_ON * i ÷ LED_FADE_STEPS) = 100 * i ÷ 100 /\ 100 * i ÷ 100 = i.
Proof.
  unfold LED_FADE_STEPS, LED_STATUS_ON, to_uint8. intros Hi.
  assert (H : 100 * i ÷ 100 = i) by (rewrite Z.mul_comm; apply Z.quot_mul; lia).
  rewrite H. split; [apply Z.mod_small; lia | reflexivity].
Qed.

Lemma writes_to_fade_in_led led D st :
  writes_to led (trace_of (fade_in_led led D st)) =
  map (fun i => 100 * i ÷ 100) (range_up 0 100).
Proof.
  rewrite trace_fade_in_led, writes_to_fade_steps.
  apply map_ext_in. intros i Hi. apply range_up_In in Hi.
  apply fade_in_value. exact Hi.
Qed.

(** C1: [fade_in_led] sends exactly 101 brightness values to its LED,
    whatever the duration; the i-th one (i = 0..100) is [100*i/100] with
    truncating division, the sequence never decreases, it starts at 0 and
    ends at 100. *)
Theorem fade_in_led_writes (led : LedType) (D : Z) (st : Store) :
  let ws := writes_to led (trace_of (fade_in_led led D st)) in
  length ws = 101%nat /\
  (forall i : nat, (i <= 100)%nat -> nth_error ws i = Some (100 * Z.of_nat i ÷ 100)) /\
  nondecreasing ws /\
  hd_error ws = Some 0 /\
  last ws (-1) = 100.
Proof.
  cbv zeta. rewrite writes_to_fade_in_led.
  split; [reflexivity|].
  split.
  { intros i Hi. rewrite nth_error_map, range_up_nth by (simpl; lia). reflexivity. }
  split; [|split; reflexivity].
  unfold nondecreasing.
  apply Sorted_StronglySorted; [intros x y z; apply Z.le_trans|].
  vm_compute. repeat (constructor; [| first [constructor; discriminate | constructor]]).
  constructor.
Qed.

Lemma fade_in_led_writes_witness :
  nth_error (writes_to LED_3 (trace_of (fade_in_led LED_3 400 (initial_store 0)))) 50
  = Some (100 * 50 ÷ 100).
Proof.
  apply (proj1 (proj2 (fade_in_led_writes LED_3 400 (initial_store 0))) 50%nat).
  lia.
Defined.

(** ** fade_out_all_leds *)

Lemma scale_bounds c j : 0 <= c -> 0 <= j <= 100 -> 0 <= c * j ÷ LED_FADE_STEPS <= c.
Proof.
  intros Hc Hj. unfold LED_FADE_STEPS.
  rewrite Z.quot_div_nonneg by nia.
  split.
  - apply Z.div_pos; nia.
  - apply Z.div_le_upper_bound; nia.
Qed.

Lemma to_uint8_small x : 0 <= x <= 255 -> to_uint8 x = x.
Proof. intro H. unfold to_uint8. apply Z.mod_small. lia. Qed.

Lemma scale_no_wrap c j :
  0 <= c <= 255 -> 0 <= j <= 100 ->
  to_uint8 (c * j ÷ LED_FADE_STEPS) = c * j ÷ LED_FADE_STEPS.
Proof.
  intros Hc Hj. apply to_uint8_small.
  pose proof (scale_bounds c j (proj1 Hc) Hj). lia.
Qed.

Lemma fade_out_all_leds_unfold D :
  fade_out_all_leds D =
  for_each (range_down LED_FADE_STEPS 0)
           (fun j => fade_out_step j ;; k_msleep (D ÷ LED_FADE_STEPS)).
Proof. reflexivity. Qed.

Lemma fade_out_step_cache j st led :
  led_brightness (store_of (fade_out_step j st)) led =
  to_uint8 (led_brightness st led * j ÷ LED_FADE_STEPS).
Proof. destruct led; reflexivity. Qed.

Lemma fade_out_step_trace j st :
  trace_of (fade_out_step j st) =
  map (fun i => EvLedSetBrightness i (to_uint8 (led_brightness st i * j ÷ LED_FADE_STEPS)))
      all_leds.
Proof. reflexivity. Qed.

Lemma fade_out_step_writes j st led :
  writes_to led (trace_of (fade_out_step j st)) =
  [to_uint8 (led_brightness st led * j ÷ LED_FADE_STEPS)].
Proof. rewrite fade_out_step_trace. destruct led; reflexivity. Qed.

Lemma fade_out_loop_writes led d js :
  Forall (fun j => 0 <= j <= 100) js ->
  forall st, 0 <= led_brightness st led <= 255 ->
  writes_to led (trace_of (for_each js (fun j => fade_out_step j ;; k_msleep d) st)) =
  decay (led_brightness st led) js.
Proof.
  induction 1 as [|j js Hj Hjs IH]; intros st Hc.
  - reflexivity.
  - rewrite trace_for_each_cons, writes_to_app, trace_bind, writes_to_app.
    rewrite fade_out_step_writes, scale_no_wrap by assumption.
    rewrite IH.
    + rewrite !store_bind. simpl store_of at 1.
      cbn [decay]. f_equal.
      change (store_of (k_msleep d (store_of (fade_out_step j st))))
        with (store_of (fade_out_step j st)).
      rewrite fade_out_step_cache, scale_no_wrap by assumption. reflexivity.
    + rewrite store_bind.
      change (store_of (k_msleep d (store_of (fade_out_step j st))))
        with (store_of (fade_out_step j st)).
      rewrite fade_out_step_cache, scale_no_wrap by assumption.
      pose proof (scale_bounds _ j (proj1 Hc) Hj). lia.
Qed.

Lemma decay_length c js : length (decay c js) = length js.
Proof. revert c; induction js as [|j js IH]; intro c; simpl; [|rewrite IH]; reflexivity. Qed.

Lemma decay_bounds js :
  Forall (fun j => 0 <= j <= 100) js ->
  forall c, 0 <= c -> Forall (fun v => 0 <= v <= c) (decay c js).
Proof.
  induction 1 as [|j js Hj Hjs IH]; intros c Hc; cbn [decay]; constructor.
  - apply scale_bounds; assumption.
  - pose proof (scale_bounds c j Hc Hj) as Hb.
    eapply Forall_impl; [|apply IH; lia].
    simpl; intros v Hv; lia.
Qed.

Lemma decay_nonincreasing js :
  Forall (fun j => 0 <= j <= 100) js ->
  forall c, 0 <= c -> nonincreasing (decay c js).
Proof.
  induction 1 as [|j js Hj Hjs IH]; intros c Hc; cbn [decay]; constructor.
  - apply IH. apply scale_bounds; assumption.
  - pose proof (scale_bounds c j Hc Hj) as Hb.
    eapply Forall_impl; [|apply (decay_bounds js Hjs); lia].
    simpl; intros v Hv; lia.
Qed.

(** Each value is the previous one (the start value for the first) scaled
    by the step. *)
Lemma decay_nth js : forall c (k : nat) x j,
  nth_error (c :: decay c js) k = Some x ->
  nth_error js k = Some j ->
  nth_error (decay c js) k = Some (x * j ÷ LED_FADE_STEPS).
Proof.
  induction js as [|j0 js IH]; intros c k x j Hx Hj.
  - destruct k; discriminate.
  - destruct k as [|k].
    + simpl in Hx, Hj. injection Hx as <-. injection Hj as <-. reflexivity.
    + cbn [decay]. cbn [nth_error] in Hx, Hj |- *. apply IH; assumption.
Qed.

Lemma decay_last js c d : last (decay c (js ++ [0])) d = 0.
Proof.
  revert c; induction js as [|j js IH]; intro c.
  - simpl. unfold LED_FADE_STEPS. rewrite Z.mul_0_r. reflexivity.
  - change (decay c ((j :: js) ++ [0]))
      with (c * j ÷ LED_FADE_STEPS :: decay (c * j ÷ LED_FADE_STEPS) (js ++ [0])).
    specialize (IH (c * j ÷ LED_FADE_STEPS)).
    destruct (decay (c * j ÷ LED_FADE_STEPS) (js ++ [0])) eqn:E.
    + destruct js; discriminate.
    + exact IH.
Qed.

Lemma range_down_steps_bounds : Forall (fun j => 0 <= j <= 100) (range_down LED_FADE_STEPS 0).
Proof. apply Forall_forall. intros j Hj. apply range_down_In in Hj. exact Hj. Qed.

Lemma range_down_steps_nth (k : nat) :
  (k <= 100)%nat -> nth_error (range_down LED_FADE_STEPS 0) k = Some (100 - Z.of_nat k).
Proof.
  intro Hk. unfold range_down. rewrite nth_error_rev, range_up_length.
  change (Z.to_nat (LED_FADE_STEPS - 0 + 1)) with 101%nat.
  destruct (Nat.ltb_spec k 101); [|lia].
  rewrite range_up_nth by (change (Z.to_nat (LED_FADE_STEPS - 0 + 1)) with 101%nat; lia).
  f_equal. lia.
Qed.

Lemma writes_to_fade_out_all_leds led D st :
  0 <= led_brightness st led <= 255 ->
  writes_to led (trace_of (fade_out_all_leds D st)) =
  decay (led_brightness st led) (range_down LED_FADE_STEPS 0).
Proof.
  intro Hc. rewrite fade_out_all_leds_unfold.
  apply fade_out_loop_writes; [apply range_down_steps_bounds | exact Hc].
Qed.

(** C2, as the code has it: for an LED whose cache holds [B] when
    [fade_out_all_leds] starts, the 101 values sent to it never increase
    and end at 0; the value sent at descending step [j = 100 - k] is
    [c*j/100] (truncating), where [c] is the value the cache holds at that
    moment: [B] at the first step, the value sent at the previous step
    afterwards. *)
Theorem fade_out_all_leds_writes (led : LedType) (D : Z) (st : Store) (B : Z) :
  led_brightness st led = B ->
  0 <= B <= 255 ->
  let ws := writes_to led (trace_of (fade_out_all_leds D st)) in
  length ws = 101%nat /\
  nonincreasing ws /\
  last ws B = 0 /\
  (forall (k : nat) (c : Z),
      (k <= 100)%nat ->
      nth_error (B :: ws) k = Some c ->
      nth_error ws k = Some (c * (100 - Z.of_nat k) ÷ 100)).
Proof.
  intros HB Hr. cbv zeta.
  rewrite writes_to_fade_out_all_leds by (rewrite HB; exact Hr).
  rewrite HB.
  split; [rewrite decay_length; reflexivity|].
  split; [apply decay_nonincreasing; [apply range_down_steps_bounds | lia]|].
  split.
  - change (range_down LED_FADE_STEPS 0) with (removelast (range_down LED_FADE_STEPS 0) ++ [0]).
    apply decay_last.
  - intros k c Hk Hc.
    apply (decay_nth _ _ _ _ _ Hc). apply range_down_steps_nth. exact Hk.
Qed.

Lemma fade_out_all_leds_writes_witness :
  let st := initial_store 0 in
  length (writes_to LED_1 (trace_of (fade_out_all_leds 400 st))) = 101%nat.
Proof.
  exact (proj1 (fade_out_all_leds_writes LED_1 400 (initial_store 0) 0 eq_refl
                  (conj (Z.le_refl 0) (Zle_bool_imp_le 0 255 eq_refl)))).
Defined.

(** C2, as the claim words it, fails: with every cache at 100 the value
    sent to LED 0 at step j = 98 is 97, not 100*98/100 = 98. *)
Lemma fade_out_all_leds_not_linear :
  let st := {| is_connection_checking := false; usb_conn_state := 0;
               profile_count_blink := 1; led_brightness := fun _ => 100;
               narrowing_lost := false |} in
  let B := led_brightness st LED_1 in
  ~ (forall j : Z, 0 <= j <= 100 ->
       nth_error (writes_to LED_1 (trace_of (fade_out_all_leds 400 st))) (Z.to_nat (100 - j))
       = Some (B * j ÷ 100)).
Proof.
  cbv zeta. intro H.
  specialize (H 98 (conj (Zle_bool_imp_le 0 98 eq_refl) (Zle_bool_imp_le 98 100 eq_refl))).
  vm_compute in H. discriminate H.
Qed.

(** ** smooth_blink_leds: the LEDs outside the mask *)

Lemma smooth_blink_leds_unfold m c D :
  smooth_blink_leds m c D = for_each (range_up 0 (c - 1)) (fun _ => blink_once m D).
Proof. reflexivity. Qed.

Lemma silent_on_ret k {A : Type} (a : A) : silent_on k (ret a).
Proof. intro st; split; reflexivity. Qed.

Lemma silent_on_bind k {A B : Type} (m : M A) (f : A -> M B) :
  silent_on k m -> (forall a, silent_on k (f a)) -> silent_on k (bind m f).
Proof.
  intros Hm Hf st.
  rewrite trace_bind, store_bind, hw_writes_app.
  destruct (Hm st) as [Ht Hs].
  destruct (Hf (value_of (m st)) (store_of (m st))) as [Ht' Hs'].
  rewrite Ht, Ht', Hs', Hs. split; reflexivity.
Qed.

Lemma silent_on_for_each k {A : Type} (l : list A) (body : A -> M unit) :
  (forall x, silent_on k (body x)) -> silent_on k (for_each l body).
Proof.
  intro Hb. induction l as [|x xs IH].
  - apply silent_on_ret.
  - rewrite for_each_cons. apply silent_on_bind; [apply Hb | intros _; exact IH].
Qed.

Lemma silent_on_k_msleep k d : silent_on k (k_msleep d).
Proof. intro st; split; reflexivity. Qed.

Lemma silent_on_get k led : silent_on k (get_led_brightness led).
Proof. intro st; split; reflexivity. Qed.

Lemma silent_on_set k led v :
  led <> k -> silent_on k (set_individual_led_brightness led v).
Proof.
  intros Hne st.
  assert (E : led_eqb led k = false).
  { destruct (led_eqb led k) eqn:E; [|reflexivity].
    apply led_eqb_eq in E. contradiction. }
  assert (E' : led_eqb k led = false).
  { destruct (led_eqb k led) eqn:E'; [|reflexivity].
    apply led_eqb_eq in E'. symmetry in E'. contradiction. }
  split.
  - simpl. rewrite E. reflexivity.
  - simpl. unfold upd. rewrite E'. reflexivity.
Qed.

Lemma silent_on_when_masked k m led (op : M unit) :
  in_mask m k = false ->
  (led <> k -> silent_on k op) ->
  silent_on k (when (in_mask m led) op).
Proof.
  intros Hk Hop. unfold when.
  destruct (in_mask m led) eqn:E.
  - apply Hop. intros ->. congruence.
  - apply silent_on_ret.
Qed.

Lemma silent_on_blink_rise k m d :
  in_mask m k = false -> silent_on k (blink_rise m d).
Proof.
  intro Hk. unfold blink_rise.
  apply silent_on_for_each; intro j.
  apply silent_on_bind; [|intros _; apply silent_on_k_msleep].
  apply silent_on_for_each; intro led.
  apply silent_on_when_masked; [exact Hk|]. apply silent_on_set.
Qed.

Lemma silent_on_blink_fall k m d :
  in_mask m k = false -> silent_on k (blink_fall m d).
Proof.
  intro Hk. unfold blink_fall.
  apply silent_on_for_each; intro j.
  apply silent_on_bind; [|intros _; apply silent_on_k_msleep].
  apply silent_on_for_each; intro led.
  apply silent_on_when_masked; [exact Hk|]. intro Hne.
  apply silent_on_bind; [apply silent_on_get|].
  intro c. apply silent_on_set. exact Hne.
Qed.

Lemma silent_on_blink_once k m D :
  in_mask m k = false -> silent_on k (blink_once m D).
Proof.
  intro Hk. unfold blink_once. cbv zeta.
  apply silent_on_bind; [apply silent_on_blink_rise; exact Hk | intros _].
  apply silent_on_bind; [apply silent_on_k_msleep | intros _].
  apply silent_on_bind; [apply silent_on_blink_fall; exact Hk | intros _].
  apply silent_on_k_msleep.
Qed.

Lemma silent_on_smooth_blink_leds k m c D :
  in_mask m k = false -> silent_on k (smooth_blink_leds m c D).
Proof.
  intro Hk. rewrite smooth_blink_leds_unfold.
  apply silent_on_for_each. intros _. apply silent_on_blink_once. exact Hk.
Qed.

(** C4: a blink with mask 0b1000, for any repeat count and duration,
    sends nothing to the LEDs of index 1, 2 and 3 and leaves their cached
    brightness as it was: only LED index 0 can change. *)
Theorem smooth_blink_leds_mask_1000_frame (count D : Z) (st : Store) :
  let r := smooth_blink_leds 8 count D st in
  Forall (fun led =>
            hw_writes led (trace_of r) = [] /\
            led_brightness (store_of r) led = led_brightness st led)
         [LED_2; LED_3; LED_4].
Proof.
  cbv zeta.
  pose proof (fun k H => silent_on_smooth_blink_leds k 8 count D H st) as Hframe.
  repeat (apply Forall_cons; [apply Hframe; reflexivity|]).
  apply Forall_nil.
Qed.

(** ** The shape of the animations in time *)

Lemma Forall_trace_for_each {A : Type} (P : Event -> Prop) (body : A -> M unit) (l : list A) :
  (forall x st, Forall P (trace_of (body x st))) ->
  forall st, Forall P (trace_of (for_each l body st)).
Proof.
  intro Hb. induction l as [|x xs IH]; intro st.
  - constructor.
  - rewrite trace_for_each_cons. apply Forall_app. split; [apply Hb | apply IH].
Qed.

Lemma stepped_for_each {A : Type} (d : Z) (inner : A -> M unit) (l : list A) :
  (forall x st, Forall is_led_write (trace_of (inner x st))) ->
  forall st, stepped d (length l) (trace_of (for_each l (fun x => inner x ;; k_msleep d) st)).
Proof.
  intro Hin. induction l as [|x xs IH]; intro st.
  - constructor.
  - rewrite trace_for_each_cons, trace_bind.
    rewrite <- app_assoc. simpl length.
    apply stepped_S; [apply Hin | apply IH].
Qed.

Lemma set_is_led_write led v st :
  Forall is_led_write (trace_of (set_individual_led_brightness led v st)).
Proof. repeat constructor. Qed.

Lemma stepped_fade_in_led led D st :
  stepped (D ÷ LED_FADE_STEPS) 101 (trace_of (fade_in_led led D st)).
Proof.
  unfold fade_in_led.
  apply (stepped_for_each (D ÷ LED_FADE_STEPS)
           (fun i => set_individual_led_brightness led (LED_STATUS_ON * i ÷ LED_FADE_STEPS))
           (range_up 0 LED_FADE_STEPS)).
  intros; apply set_is_led_write.
Qed.

Lemma stepped_fade_out_all_leds D st :
  stepped (D ÷ LED_FADE_STEPS) 101 (trace_of (fade_out_all_leds D st)).
Proof.
  rewrite fade_out_all_leds_unfold.
  apply (stepped_for_each (D ÷ LED_FADE_STEPS) fade_out_step (range_down LED_FADE_STEPS 0)).
  intros j st'. rewrite fade_out_step_trace. repeat constructor.
Qed.

Lemma masked_writes_only m (op : LedType -> M unit) :
  (forall k st, Forall is_led_write (trace_of (op k st))) ->
  forall st, Forall is_led_write
               (trace_of (for_each all_leds (fun k => when (in_mask m k) (op k)) st)).
Proof.
  intros Hop. apply Forall_trace_for_each.
  intros k st. unfold when. destruct (in_mask m k); [apply Hop | constructor].
Qed.

Lemma stepped_blink_rise m d st :
  stepped d 101 (trace_of (blink_rise m d st)).
Proof.
  unfold blink_rise.
  apply (stepped_for_each d
           (fun j => for_each all_leds (fun k =>
              when (in_mask m k)
                (set_individual_led_brightness k (LED_STATUS_ON * j ÷ LED_FADE_STEPS))))
           (range_up 0 LED_FADE_STEPS)).
  intros j st'. apply masked_writes_only. intros; apply set_is_led_write.
Qed.

Lemma stepped_blink_fall m d st :
  stepped d 101 (trace_of (blink_fall m d st)).
Proof.
  unfold blink_fall.
  apply (stepped_for_each d
           (fun j => for_each all_leds (fun k =>
              when (in_mask m k)
                (current_brightness <- get_led_brightness k ;;
                 set_individual_led_brightness k (current_brightness * j ÷ LED_FADE_STEPS))))
           (range_down LED_FADE_STEPS 0)).
  intros j st'. apply masked_writes_only. intros k st''.
  rewrite trace_bind. apply set_is_led_write.
Qed.

Lemma trace_blink_once m D st :
  exists up down,
    trace_of (blink_once m D st) =
      up ++ EvSleep BLINK_HOLD_DURATION_MS :: down ++ [EvSleep BLINK_HOLD_DURATION_MS] /\
    stepped (D ÷ (2 * LED_FADE_STEPS)) 101 up /\
    stepped (D ÷ (2 * LED_FADE_STEPS)) 101 down.
Proof.
  unfold blink_once. cbv zeta.
  set (d := D ÷ (2 * LED_FADE_STEPS)).
  eexists; eexists. split; [|split].
  - rewrite trace_bind, trace_bind, trace_bind. simpl trace_of at 2.
    cbn [app]. reflexivity.
  - apply stepped_blink_rise.
  - apply stepped_blink_fall.
Qed.

Lemma blinks_for_each {A : Type} m D (l : list A) : forall st,
  blinks (D ÷ (2 * LED_FADE_STEPS)) 101 (length l)
         (trace_of (for_each l (fun _ => blink_once m D) st)).
Proof.
  induction l as [|x xs IH]; intro st.
  - constructor.
  - rewrite trace_for_each_cons.
    destruct (trace_blink_once m D st) as [up [down [E [Hup Hdown]]]].
    rewrite E. rewrite <- app_assoc. cbn [app]. rewrite <- app_assoc. cbn [app length].
    apply blinks_S; [exact Hup | exact Hdown | apply IH].
Qed.

Lemma blinks_smooth_blink_leds m c D st :
  blinks (D ÷ 200) 101 (Z.to_nat c) (trace_of (smooth_blink_leds m c D st)).
Proof.
  rewrite smooth_blink_leds_unfold.
  replace (Z.to_nat c) with (length (range_up 0 (c - 1)))
    by (rewrite range_up_length; f_equal; lia).
  apply blinks_for_each.
Qed.

Lemma one_write_each_map leds (f : LedType -> Z) :
  one_write_each leds (map (fun k => EvLedSetBrightness k (f k)) leds).
Proof.
  induction leds as [|k leds IH]; constructor; [eexists; reflexivity | exact IH].
Qed.

Lemma stepped_on_for_each {A : Type} leds (d : Z) (inner : A -> M unit) (l : list A) :
  (forall x st, one_write_each leds (trace_of (inner x st))) ->
  forall st,
    stepped_on leds d (length l) (trace_of (for_each l (fun x => inner x ;; k_msleep d) st)).
Proof.
  intro Hin. induction l as [|x xs IH]; intro st.
  - constructor.
  - rewrite trace_for_each_cons, trace_bind.
    rewrite <- app_assoc. simpl length.
    apply stepped_on_S; [apply Hin | apply IH].
Qed.

Lemma fade_in_steps_ramp led d (l : list Z) :
  (forall i, In i l -> 0 <= i <= LED_FADE_STEPS) ->
  flat_map (fun i => [EvLedSetBrightness led (to_uint8 (LED_STATUS_ON * i ÷ LED_FADE_STEPS));
                      EvSleep d]) l =
  ramp led d (map (fun i => 100 * i ÷ 100) l).
Proof.
  induction l as [|x l IH]; intro H; [reflexivity|].
  cbn [flat_map map ramp app]. fold (ramp led d (map (fun i => 100 * i ÷ 100) l)).
  rewrite (proj1 (fade_in_value x (H x (or_introl eq_refl)))), IH; [reflexivity|].
  intros y Hy. apply H. right. exact Hy.
Qed.

Lemma trace_fade_in_led_ramp led D st :
  trace_of (fade_in_led led D st) =
  ramp led (D ÷ 100) (map (fun i => 100 * i ÷ 100) (range_up 0 100)).
Proof.
  rewrite trace_fade_in_led.
  apply (fade_in_steps_ramp led (D ÷ LED_FADE_STEPS) (range_up 0 LED_FADE_STEPS)).
  intros i Hi. apply range_up_In. exact Hi.
Qed.

Lemma stepped_on_fade_in_led led D st :
  stepped_on [led] (D ÷ LED_FADE_STEPS) 101 (trace_of (fade_in_led led D st)).
Proof.
  unfold fade_in_led.
  apply (stepped_on_for_each [led] (D ÷ LED_FADE_STEPS)
           (fun i => set_individual_led_brightness led (LED_STATUS_ON * i ÷ LED_FADE_STEPS))
           (range_up 0 LED_FADE_STEPS)).
  intros i st'. constructor; [eexists; reflexivity | constructor].
Qed.

Lemma stepped_on_fade_out_all_leds D st :
  stepped_on all_leds (D ÷ LED_FADE_STEPS) 101 (trace_of (fade_out_all_leds D st)).
Proof.
  rewrite fade_out_all_leds_unfold.
  apply (stepped_on_for_each all_leds (D ÷ LED_FADE_STEPS) fade_out_step
           (range_down LED_FADE_STEPS 0)).
  intros j st'. rewrite fade_out_step_trace.
  apply (one_write_each_map all_leds
           (fun i => to_uint8 (led_brightness st' i * j ÷ LED_FADE_STEPS))).
Qed.

Lemma rise_step_trace m j st :
  trace_of (rise_step m j st) =
  map (fun k => EvLedSetBrightness k (to_uint8 (LED_STATUS_ON * j ÷ LED_FADE_STEPS)))
      (filter (in_mask m) all_leds).
Proof.
  unfold rise_step. cbn [for_each all_leds filter].
  destruct (in_mask m LED_1), (in_mask m LED_2), (in_mask m LED_3), (in_mask m LED_4);
    reflexivity.
Qed.

Lemma fall_step_trace m j st :
  trace_of (fall_step m j st) =
  map (fun k => EvLedSetBrightness k (to_uint8 (led_brightness st k * j ÷ LED_FADE_STEPS)))
      (filter (in_mask m) all_leds).
Proof.
  unfold fall_step. cbn [for_each all_leds filter].
  destruct (in_mask m LED_1), (in_mask m LED_2), (in_mask m LED_3), (in_mask m LED_4);
    reflexivity.
Qed.

Lemma stepped_on_blink_rise m d st :
  stepped_on (filter (in_mask m) all_leds) d 101 (trace_of (blink_rise m d st)).
Proof.
  unfold blink_rise.
  apply (stepped_on_for_each (filter (in_mask m) all_leds) d (rise_step m)
           (range_up 0 LED_FADE_STEPS)).
  intros j st'. rewrite rise_step_trace.
  apply (one_write_each_map _ (fun _ => to_uint8 (LED_STATUS_ON * j ÷ LED_FADE_STEPS))).
Qed.

Lemma stepped_on_blink_fall m d st :
  stepped_on (filter (in_mask m) all_leds) d 101 (trace_of (blink_fall m d st)).
Proof.
  unfold blink_fall.
  apply (stepped_on_for_each (filter (in_mask m) all_leds) d (fall_step m)
           (range_down LED_FADE_STEPS 0)).
  intros j st'. rewrite fall_step_trace.
  apply (one_write_each_map _ (fun k => to_uint8 (led_brightness st' k * j ÷ LED_FADE_STEPS))).
Qed.

Lemma blinks_on_for_each {A : Type} m D (l : list A) : forall st,
  blinks_on (filter (in_mask m) all_leds) (D ÷ (2 * LED_FADE_STEPS)) 101 (length l)
            (trace_of (for_each l (fun _ => blink_once m D) st)).
Proof.
  induction l as [|x xs IH]; intro st.
  - constructor.
  - rewrite trace_for_each_cons.
    unfold blink_once at 1. cbv zeta. rewrite !trace_bind.
    change (trace_of (k_msleep BLINK_HOLD_DURATION_MS ?s)) with [EvSleep BLINK_HOLD_DURATION_MS].
    rewrite <- !app_assoc. cbn [app length].
    apply blinks_on_S; [apply stepped_on_blink_rise | apply stepped_on_blink_fall |].
    match goal with
    | |- blinks_on _ _ _ _ (trace_of (for_each xs _ ?s)) =>
        replace s with (store_of (blink_once m D st)); [apply IH|]
    end.
    unfold blink_once. cbv zeta. rewrite !store_bind. reflexivity.
Qed.

Lemma blinks_on_smooth_blink_leds m c D st :
  blinks_on (filter (in_mask m) all_leds) (D ÷ 200) 101 (Z.to_nat c)
            (trace_of (smooth_blink_leds m c D st)).
Proof.
  rewrite smooth_blink_leds_unfold.
  replace (Z.to_nat c) with (length (range_up 0 (c - 1)))
    by (rewrite range_up_length; f_equal; lia).
  apply blinks_on_for_each.
Qed.

(** C8, as the code has it: for every duration [D], [fade_in_led] and
    [fade_out_all_leds] go through 101 brightness steps (100 increments)
    and follow each step by a sleep of exactly [D/100] ms, while each fade
    phase of [smooth_blink_leds] goes through 101 steps and follows each by
    a sleep of exactly [D/200] ms (the duration is split over both phases);
    a blink with repeat count [count] consists of [count] such pairs of
    phases, each phase followed by the 100 ms hold.  A step is exactly one
    brightness write to each LED concerned, in index order: the one LED of
    [fade_in_led] (whose whole trace is the ramp of the values [100*i/100],
    each followed by its sleep), all four LEDs for [fade_out_all_leds], and
    the LEDs of the mask for [smooth_blink_leds]. *)
Theorem animation_step_delays (D : Z) (st : Store) :
  (forall led, stepped (D ÷ 100) 101 (trace_of (fade_in_led led D st))) /\
  stepped (D ÷ 100) 101 (trace_of (fade_out_all_leds D st)) /\
  (forall mask count,
      blinks (D ÷ 200) 101 (Z.to_nat count) (trace_of (smooth_blink_leds mask count D st))) /\
  (forall led,
      stepped_on [led] (D ÷ 100) 101 (trace_of (fade_in_led led D st)) /\
      trace_of (fade_in_led led D st) =
        ramp led (D ÷ 100) (map (fun i => 100 * i ÷ 100) (range_up 0 100))) /\
  stepped_on all_leds (D ÷ 100) 101 (trace_of (fade_out_all_leds D st)) /\
  (forall mask count,
      blinks_on (filter (in_mask mask) all_leds) (D ÷ 200) 101 (Z.to_nat count)
                (trace_of (smooth_blink_leds mask count D st))).
Proof.
  split; [intro led; apply stepped_fade_in_led|].
  split; [apply stepped_fade_out_all_leds|].
  split; [intros mask count; apply blinks_smooth_blink_leds|].
  split.
  { intro led. split; [apply stepped_on_fade_in_led | apply trace_fade_in_led_ramp]. }
  split; [apply stepped_on_fade_out_all_leds|].
  intros mask count. apply blinks_on_smooth_blink_leds.
Qed.

Lemma first_other_writes ws tr :
  Forall is_led_write ws -> first_other (ws ++ tr) = first_other tr.
Proof.
  induction 1 as [|e ws He Hws IH]; [reflexivity|].
  destruct e; simpl in He; try contradiction; exact IH.
Qed.

Lemma blinks_first_other d steps n tr :
  blinks d (S steps) (S n) tr -> first_other tr = Some (EvSleep d).
Proof.
  intro H. inversion H as [|n' up down tr' Hup Hdown Hrest]; subst.
  inversion Hup as [|s ws up' Hws Hup']; subst.
  rewrite <- app_assoc. rewrite first_other_writes by exact Hws. reflexivity.
Qed.

(** C8, as the claim words it, fails for the blink: with D = 200 the
    sleep after the first step of the rising phase is 1 ms, so the trace
    is not one of steps followed by sleeps of 200/100 = 2 ms. *)
Lemma smooth_blink_leds_delay_not_D_over_100 :
  ~ blinks (200 ÷ 100) 101 1 (trace_of (smooth_blink_leds 8 1 200 (initial_store 0))).
Proof.
  intro H. apply blinks_first_other in H.
  vm_compute in H. discriminate H.
Qed.

(** ** Brightness values stay percentages *)

Lemma keeps_percent_ret {A : Type} (a : A) : keeps_percent (ret a).
Proof. intros st Hb. split; [exact Hb | split; [constructor | reflexivity]]. Qed.

Lemma keeps_percent_bind {A B : Type} (m : M A) (f : A -> M B) :
  keeps_percent m -> (forall a, keeps_percent (f a)) -> keeps_percent (bind m f).
Proof.
  intros Hm Hf st Hb.
  destruct (Hm st Hb) as [Hb1 [Ht1 Hn1]].
  destruct (Hf (value_of (m st)) (store_of (m st)) Hb1) as [Hb2 [Ht2 Hn2]].
  rewrite trace_bind, store_bind.
  split; [exact Hb2|]. split; [apply Forall_app; split; assumption|].
  rewrite Hn2. exact Hn1.
Qed.

Lemma keeps_percent_for_each {A : Type} (l : list A) (body : A -> M unit) :
  (forall x, In x l -> keeps_percent (body x)) -> keeps_percent (for_each l body).
Proof.
  induction l as [|x xs IH]; intro Hb.
  - apply keeps_percent_ret.
  - rewrite for_each_cons. apply keeps_percent_bind.
    + apply Hb; left; reflexivity.
    + intros _. apply IH. intros y Hy. apply Hb; right; exact Hy.
Qed.

Lemma keeps_percent_k_msleep d : keeps_percent (k_msleep d).
Proof. intros st Hb. split; [exact Hb | split; [repeat constructor | reflexivity]]. Qed.

Lemma keeps_percent_when (b : bool) (m : M unit) :
  keeps_percent m -> keeps_percent (when b m).
Proof. intro Hm. destruct b; [exact Hm | apply keeps_percent_ret]. Qed.

Lemma keeps_percent_set led v :
  0 <= v <= 100 -> keeps_percent (set_individual_led_brightness led v).
Proof.
  intros Hv st Hb.
  assert (E : to_uint8 v = v) by (apply to_uint8_small; lia).
  unfold set_individual_led_brightness, store_of, trace_of; cbn [fst snd].
  rewrite E, Z.eqb_refl. cbn [negb]. rewrite orb_false_r.
  split; [|split; [apply Forall_cons; [exact Hv | apply Forall_nil] | reflexivity]].
  intro l; cbn [led_brightness]. unfold upd.
  destruct (led_eqb l led); [exact Hv | apply Hb].
Qed.

Lemma rise_value_percent j :
  0 <= j <= 100 -> 0 <= LED_STATUS_ON * j ÷ LED_FADE_STEPS <= 100.
Proof. intro Hj. apply (scale_bounds 100 j); [lia | exact Hj]. Qed.

Lemma keeps_percent_scale led j :
  0 <= j <= 100 ->
  keeps_percent (current_brightness <- get_led_brightness led ;;
                 set_individual_led_brightness led (current_brightness * j ÷ LED_FADE_STEPS)).
Proof.
  intros Hj st Hb.
  pose proof (Hb led) as Hc.
  pose proof (scale_bounds (led_brightness st led) j (proj1 Hc) Hj) as Hv.
  assert (Hv' : 0 <= led_brightness st led * j ÷ LED_FADE_STEPS <= 100) by lia.
  exact (keeps_percent_set led _ Hv' st Hb).
Qed.

Lemma keeps_percent_fade_in_led led D : keeps_percent (fade_in_led led D).
Proof.
  unfold fade_in_led. apply keeps_percent_for_each. intros i Hi.
  apply range_up_In in Hi.
  apply keeps_percent_bind; [|intros _; apply keeps_percent_k_msleep].
  apply keeps_percent_set. apply rise_value_percent. exact Hi.
Qed.

Lemma keeps_percent_fade_out_all_leds D : keeps_percent (fade_out_all_leds D).
Proof.
  unfold fade_out_all_leds. apply keeps_percent_for_each. intros j Hj.
  apply range_down_In in Hj.
  apply keeps_percent_bind; [|intros _; apply keeps_percent_k_msleep].
  apply keeps_percent_for_each. intros led _.
  apply keeps_percent_scale. exact Hj.
Qed.

Lemma keeps_percent_blink_once m D : keeps_percent (blink_once m D).
Proof.
  unfold blink_once, blink_rise, blink_fall. cbv zeta.
  apply keeps_percent_bind; [|intros _].
  { apply keeps_percent_for_each. intros j Hj. apply range_up_In in Hj.
    apply keeps_percent_bind; [|intros _; apply keeps_percent_k_msleep].
    apply keeps_percent_for_each. intros led _.
    apply keeps_percent_when, keeps_percent_set, rise_value_percent. exact Hj. }
  apply keeps_percent_bind; [apply keeps_percent_k_msleep | intros _].
  apply keeps_percent_bind; [|intros _; apply keeps_percent_k_msleep].
  apply keeps_percent_for_each. intros j Hj. apply range_down_In in Hj.
  apply keeps_percent_bind; [|intros _; apply keeps_percent_k_msleep].
  apply keeps_percent_for_each. intros led _.
  apply keeps_percent_when, keeps_percent_scale. exact Hj.
Qed.

Lemma keeps_percent_smooth_blink_leds m c D : keeps_percent (smooth_blink_leds m c D).
Proof.
  rewrite smooth_blink_leds_unfold. apply keeps_percent_for_each.
  intros _ _. apply keeps_percent_blink_once.
Qed.

(** C10: from a store whose cached brightness values all lie in [0,100],
    each of [fade_in_led], [fade_out_all_leds] and [smooth_blink_leds]
    (any LED, mask, repeat count and duration) sends only values in
    [0,100] to the driver, leaves every cached value in [0,100], and never
    passes [set_individual_led_brightness] an argument that the conversion
    to [uint8_t] changes. *)
Theorem brightness_stays_percent (st : Store) :
  cache_bounded st ->
  (forall led D,
      let r := fade_in_led led D st in
      cache_bounded (store_of r) /\ Forall write_in_range (trace_of r) /\
      narrowing_lost (store_of r) = narrowing_lost st) /\
  (forall D,
      let r := fade_out_all_leds D st in
      cache_bounded (store_of r) /\ Forall write_in_range (trace_of r) /\
      narrowing_lost (store_of r) = narrowing_lost st) /\
  (forall mask count D,
      let r := smooth_blink_leds mask count D st in
      cache_bounded (store_of r) /\ Forall write_in_range (trace_of r) /\
      narrowing_lost (store_of r) = narrowing_lost st).
Proof.
  intro Hb. split; [|split].
  - intros led D. exact (keeps_percent_fade_in_led led D st Hb).
  - intro D. exact (keeps_percent_fade_out_all_leds D st Hb).
  - intros mask count D. exact (keeps_percent_smooth_blink_leds mask count D st Hb).
Qed.

Lemma brightness_stays_percent_witness :
  cache_bounded (initial_store 0) /\
  narrowing_lost (store_of (smooth_blink_leds 14 3 800 (initial_store 0))) = false.
Proof.
  assert (Hb : cache_bounded (initial_store 0)) by (intro led; simpl; lia).
  split; [exact Hb|].
  exact (proj2 (proj2 (proj2 (proj2 (brightness_stays_percent (initial_store 0) Hb)) 14 3 800))).
Defined.

(** ** Cache and hardware *)

Lemma last_error_cons {A : Type} (x : A) (l : list A) :
  last_error (x :: l) =
  match last_error l with Some y => Some y | None => Some x end.
Proof.
  destruct l as [|y l]; [reflexivity|].
  change (last_error (x :: y :: l)) with (last_error (y :: l)).
  destruct (last_error (y :: l)) eqn:E; [reflexivity|].
  exfalso. revert y E. induction l as [|z l IH]; intros y E; [discriminate|].
  exact (IH z E).
Qed.

Lemma last_error_app {A : Type} (a b : list A) :
  last_error (a ++ b) =
  match last_error b with Some x => Some x | None => last_error a end.
Proof.
  induction a as [|x a IH].
  - simpl. destruct (last_error b); reflexivity.
  - change ((x :: a) ++ b) with (x :: (a ++ b)).
    rewrite !last_error_cons, IH.
    destruct (last_error b); [reflexivity|].
    destruct (last_error a); reflexivity.
Qed.

Lemma tracks_hw_ret {A : Type} (a : A) : tracks_hw (ret a).
Proof. intros st led. reflexivity. Qed.

Lemma tracks_hw_bind {A B : Type} (m : M A) (f : A -> M B) :
  tracks_hw m -> (forall a, tracks_hw (f a)) -> tracks_hw (bind m f).
Proof.
  intros Hm Hf st led.
  rewrite trace_bind, store_bind, hw_writes_app, last_error_app.
  specialize (Hm st led).
  specialize (Hf (value_of (m st)) (store_of (m st)) led).
  destruct (last_error (hw_writes led (trace_of (f (value_of (m st)) (store_of (m st)))))).
  - exact Hf.
  - destruct (last_error (hw_writes led (trace_of (m st)))); congruence.
Qed.

Lemma tracks_hw_for_each {A : Type} (l : list A) (body : A -> M unit) :
  (forall x, tracks_hw (body x)) -> tracks_hw (for_each l body).
Proof.
  intro Hb. induction l as [|x xs IH].
  - apply tracks_hw_ret.
  - rewrite for_each_cons. apply tracks_hw_bind; [apply Hb | intros _; exact IH].
Qed.

Lemma tracks_hw_k_msleep d : tracks_hw (k_msleep d).
Proof. intros st led. reflexivity. Qed.

Lemma tracks_hw_get k : tracks_hw (get_led_brightness k).
Proof. intros st led. reflexivity. Qed.

Lemma tracks_hw_set k v : tracks_hw (set_individual_led_brightness k v).
Proof.
  intros st led. simpl. unfold upd.
  destruct k, led; reflexivity.
Qed.

Lemma tracks_hw_when (b : bool) (m : M unit) : tracks_hw m -> tracks_hw (when b m).
Proof. intro Hm. destruct b; [exact Hm | apply tracks_hw_ret]. Qed.

Lemma tracks_hw_fade_in_led led D : tracks_hw (fade_in_led led D).
Proof.
  unfold fade_in_led. apply tracks_hw_for_each. intro i.
  apply tracks_hw_bind; [apply tracks_hw_set | intros _; apply tracks_hw_k_msleep].
Qed.

Lemma tracks_hw_fade_out_all_leds D : tracks_hw (fade_out_all_leds D).
Proof.
  unfold fade_out_all_leds. apply tracks_hw_for_each. intro j.
  apply tracks_hw_bind; [|intros _; apply tracks_hw_k_msleep].
  apply tracks_hw_for_each. intro led.
  apply tracks_hw_bind; [apply tracks_hw_get | intro cur; apply tracks_hw_set].
Qed.

Lemma tracks_hw_smooth_blink_leds m c D : tracks_hw (smooth_blink_leds m c D).
Proof.
  rewrite smooth_blink_leds_unfold. apply tracks_hw_for_each. intros _.
  unfold blink_once, blink_rise, blink_fall. cbv zeta.
  apply tracks_hw_bind; [|intros _].
  { apply tracks_hw_for_each. intro j.
    apply tracks_hw_bind; [|intros _; apply tracks_hw_k_msleep].
    apply tracks_hw_for_each. intro led.
    apply tracks_hw_when, tracks_hw_set. }
  apply tracks_hw_bind; [apply tracks_hw_k_msleep | intros _].
  apply tracks_hw_bind; [|intros _; apply tracks_hw_k_msleep].
  apply tracks_hw_for_each. intro j.
  apply tracks_hw_bind; [|intros _; apply tracks_hw_k_msleep].
  apply tracks_hw_for_each. intro led.
  apply tracks_hw_when, tracks_hw_bind; [apply tracks_hw_get | intro cur; apply tracks_hw_set].
Qed.

Lemma tracks_hw_run_op op : updates_cache op = true -> tracks_hw (run_op op).
Proof.
  destruct op; cbn [updates_cache run_op]; intro H.
  - apply tracks_hw_set.
  - apply tracks_hw_fade_in_led.
  - apply tracks_hw_fade_out_all_leds.
  - apply tracks_hw_smooth_blink_leds.
  - discriminate H.
Qed.

Lemma coherent_step {A : Type} (m : M A) tr st :
  tracks_hw m -> coherent tr st ->
  coherent (tr ++ trace_of (m st)) (store_of (m st)).
Proof.
  intros Hm Hc led v. unfold last_hw.
  rewrite hw_writes_app, last_error_app.
  specialize (Hm st led). specialize (Hc led).
  destruct (last_error (hw_writes led (trace_of (m st)))) as [w|].
  - simpl. intro E. injection E as <-. exact Hm.
  - intro E. rewrite Hm. apply Hc. exact E.
Qed.

Lemma coherent_run_ops ops : forall tr st,
  forallb updates_cache ops = true ->
  coherent tr st ->
  coherent (tr ++ trace_of (run_ops ops st)) (store_of (run_ops ops st)).
Proof.
  unfold run_ops.
  induction ops as [|op ops IH]; intros tr st Hops Hc.
  - simpl. rewrite app_nil_r. exact Hc.
  - cbn [forallb] in Hops. apply andb_true_iff in Hops as [Hop Hops].
    rewrite trace_for_each_cons, store_for_each_cons, app_assoc.
    apply IH; [exact Hops|].
    apply coherent_step; [apply tracks_hw_run_op; exact Hop | exact Hc].
Qed.

Lemma turn_off_all_leds_effect tr st led :
  last_hw led (tr ++ trace_of (turn_off_all_leds st)) = Some LED_STATUS_OFF /\
  led_brightness (store_of (turn_off_all_leds st)) led = led_brightness st led.
Proof.
  split; [|reflexivity].
  unfold last_hw. rewrite hw_writes_app, last_error_app.
  destruct led; reflexivity.
Qed.

(** C9, as the code has it: after any sequence of
    [set_individual_led_brightness], [fade_in_led], [fade_out_all_leds] and
    [smooth_blink_leds], the cached brightness of every LED equals the
    level most recently written to its hardware.  [turn_off_all_leds] is
    outside the invariant: it switches every LED off and leaves the cache
    as it was, so it keeps the invariant only where the cache already
    holds 0, as at start-up. *)
Theorem cache_follows_hardware (ops : list LedOp) (tr : list Event) (st : Store) :
  coherent tr st ->
  (forallb updates_cache ops = true ->
   coherent (tr ++ trace_of (run_ops ops st)) (store_of (run_ops ops st))) /\
  (forall led,
      last_hw led (tr ++ trace_of (turn_off_all_leds st)) = Some LED_STATUS_OFF /\
      led_brightness (store_of (turn_off_all_leds st)) led = led_brightness st led) /\
  ((forall led, led_brightness st led = LED_STATUS_OFF) ->
   coherent (tr ++ trace_of (turn_off_all_leds st)) (store_of (turn_off_all_leds st))).
Proof.
  intro Hc. split; [|split].
  - intro Hops. apply coherent_run_ops; assumption.
  - intro led. apply turn_off_all_leds_effect.
  - intros Hz led v Hv.
    destruct (turn_off_all_leds_effect tr st led) as [Hl Hs].
    rewrite Hl in Hv. injection Hv as <-. rewrite Hs. apply Hz.
Qed.

Lemma cache_follows_hardware_witness :
  let ops := [OpFadeIn LED_2 400; OpBlink 12 1 800; OpFadeOutAll 300] in
  coherent [] (initial_store 0) /\
  coherent ([] ++ trace_of (run_ops ops (initial_store 0)))
           (store_of (run_ops ops (initial_store 0))).
Proof.
  assert (Hc : coherent [] (initial_store 0)) by (intros led v H; discriminate H).
  split; [exact Hc|].
  exact (proj1 (cache_follows_hardware
                  [OpFadeIn LED_2 400; OpBlink 12 1 800; OpFadeOutAll 300]
                  [] (initial_store 0) Hc) eq_refl).
Defined.

(** C9, as the claim words it, fails once [turn_off_all_leds] is in the
    sequence: after fading LED 0 in and turning all LEDs off, the hardware
    of LED 0 was last switched off while its cache entry is 100. *)
Lemma cache_stale_after_turn_off :
  let r := run_ops [OpFadeIn LED_1 400; OpTurnOffAll] (initial_store 0) in
  coherent [] (initial_store 0) /\
  ~ coherent ([] ++ trace_of r) (store_of r).
Proof.
  cbv zeta. split.
  - intros led v H; discriminate H.
  - intro H. specialize (H LED_1 0).
    assert (E : last_hw LED_1
                  ([] ++ trace_of (run_ops [OpFadeIn LED_1 400; OpTurnOffAll] (initial_store 0)))
                = Some 0) by (vm_compute; reflexivity).
    specialize (H E). vm_compute in H. discriminate H.
Qed.

(** ** Battery handler *)

(** C3: the battery handler blinks with a (mask, repeat count) that is a
    function of the percentage alone, by inclusive thresholds taken in
    ascending order: up to 15 gives (0b1000, 3), up to 30 (0b1000, 1), up
    to 50 (0b1100, 1), up to 80 (0b1110, 1), above (0b1110, 3), always
    with the 800 ms battery duration; 10, 25, 45, 75 and 95 give the five
    rows, and 15 and 16 fall on the two sides of the first threshold. *)
Theorem battery_animation_handler_table (level : Z) :
  battery_animation_handler level =
    smooth_blink_leds (fst (battery_pattern level)) (snd (battery_pattern level))
                      FADE_DURATION_BATTERY_MS /\
  (level <= 15 -> battery_pattern level = (8, 3)) /\
  (15 < level <= 30 -> battery_pattern level = (8, 1)) /\
  (30 < level <= 50 -> battery_pattern level = (12, 1)) /\
  (50 < level <= 80 -> battery_pattern level = (14, 1)) /\
  (80 < level -> battery_pattern level = (14, 3)) /\
  map battery_pattern [10; 25; 45; 75; 95] = [(8, 3); (8, 1); (12, 1); (14, 1); (14, 3)] /\
  battery_pattern 15 = (8, 3) /\
  battery_pattern 16 = (8, 1).
Proof.
  unfold battery_animation_handler, battery_pattern, battery_thresholds.
  cbn [find fst snd map].
  destruct (Z.leb_spec level 15);
    [| destruct (Z.leb_spec level 30);
       [| destruct (Z.leb_spec level 50);
          [| destruct (Z.leb_spec level 80)]]];
    cbn [fst snd];
    (split; [reflexivity|]);
    repeat (split; [intro; first [reflexivity | lia]|]);
    (split; [reflexivity | split; reflexivity]).
Qed.

Lemma battery_animation_handler_table_witness :
  battery_pattern 10 = (8, 3) /\ battery_pattern 25 = (8, 1) /\
  battery_pattern 90 = (14, 3).
Proof.
  split; [|split].
  - apply (proj1 (proj2 (battery_animation_handler_table 10))). vm_compute. discriminate.
  - apply (proj1 (proj2 (proj2 (battery_animation_handler_table 25)))).
    split; vm_compute; [reflexivity | discriminate].
  - apply (proj1 (proj2 (proj2 (proj2 (proj2 (proj2 (battery_animation_handler_table 90))))))).
    vm_compute. reflexivity.
Defined.

(** ** Disconnect check *)

Section ConnectionCheckFacts.

Variable NONE : Z.

Lemma check_handler_idle ble st :
  is_connection_checking st = false ->
  check_bluetooth_connection_handler NONE ble st = (tt, st, []).
Proof.
  intro H. unfold check_bluetooth_connection_handler, bind, get_is_connection_checking.
  rewrite H. reflexivity.
Qed.

Lemma check_handler_connected ble st :
  is_connection_checking st = true ->
  ble || negb (usb_conn_state st =? NONE) = true ->
  check_bluetooth_connection_handler NONE ble st = set_is_connection_checking false st.
Proof.
  intros H Hc.
  unfold check_bluetooth_connection_handler, bind, get_is_connection_checking,
    get_usb_conn_state.
  rewrite H. cbn [negb]. rewrite Hc. reflexivity.
Qed.

Lemma check_handler_disconnected ble st :
  is_connection_checking st = true ->
  ble || negb (usb_conn_state st =? NONE) = false ->
  check_bluetooth_connection_handler NONE ble st =
  (smooth_blink_leds 1 1 FADE_DURATION_DISCONNECT_MS ;;
   k_work_reschedule check_ble_conn_work (K_SECONDS 4)) st.
Proof.
  intros H Hc.
  unfold check_bluetooth_connection_handler, get_is_connection_checking,
    get_usb_conn_state.
  unfold bind at 1. rewrite H. cbn [negb]. unfold bind at 1. rewrite Hc.
  cbn [app].
  destruct ((smooth_blink_leds 1 1 FADE_DURATION_DISCONNECT_MS;;
             k_work_reschedule check_ble_conn_work (K_SECONDS 4)) st) as [[u st'] tr].
  destruct u. reflexivity.
Qed.

End ConnectionCheckFacts.

Lemma writes_only_to_b_sound led tr :
  writes_only_to_b led tr = true -> writes_only_to led tr.
Proof.
  unfold writes_only_to_b, writes_only_to. rewrite forallb_forall, Forall_forall.
  intros H e He. specialize (H e He).
  destruct e; try exact I; apply led_eqb_eq; exact H.
Qed.

Lemma writes_only_to_silent led tr k :
  writes_only_to led tr -> k <> led -> hw_writes k tr = [].
Proof.
  intros H Hne. induction H as [|e tr He Htr IH]; [reflexivity|].
  destruct e; cbn [hw_writes]; try exact IH;
    (subst led0; destruct (led_eqb led k) eqn:E;
     [apply led_eqb_eq in E; congruence | exact IH]).
Qed.

Lemma disconnect_blink_any_store st :
  trace_of (smooth_blink_leds 1 1 FADE_DURATION_DISCONNECT_MS st) = disconnect_blink_trace.
Proof. vm_compute. reflexivity. Qed.

Lemma disconnect_blink_trace_explicit :
  disconnect_blink_trace = single_led_blink LED_4 (300 ÷ 200).
Proof. vm_compute. reflexivity. Qed.

Lemma blinked_and_rescheduled_explicit tr :
  blinked_and_rescheduled tr ->
  tr = single_led_blink LED_4 (300 ÷ 200) ++ [EvReschedule check_ble_conn_work 4000].
Proof.
  unfold blinked_and_rescheduled. intros ->.
  rewrite disconnect_blink_trace_explicit. reflexivity.
Qed.

Lemma keeps_flags_ret {A : Type} (a : A) : keeps_flags (ret a).
Proof. intro st; reflexivity. Qed.

Lemma keeps_flags_bind {A B : Type} (m : M A) (f : A -> M B) :
  keeps_flags m -> (forall a, keeps_flags (f a)) -> keeps_flags (bind m f).
Proof. intros Hm Hf st. rewrite store_bind, Hf, Hm. reflexivity. Qed.

Lemma keeps_flags_for_each {A : Type} (l : list A) (body : A -> M unit) :
  (forall x, keeps_flags (body x)) -> keeps_flags (for_each l body).
Proof.
  intro Hb. induction l as [|x xs IH].
  - apply keeps_flags_ret.
  - rewrite for_each_cons. apply keeps_flags_bind; [apply Hb | intros _; exact IH].
Qed.

Lemma keeps_flags_k_msleep d : keeps_flags (k_msleep d).
Proof. intro st; reflexivity. Qed.

Lemma keeps_flags_get k : keeps_flags (get_led_brightness k).
Proof. intro st; reflexivity. Qed.

Lemma keeps_flags_set k v : keeps_flags (set_individual_led_brightness k v).
Proof. intro st; reflexivity. Qed.

Lemma keeps_flags_when (b : bool) (m : M unit) : keeps_flags m -> keeps_flags (when b m).
Proof. intro Hm. destruct b; [exact Hm | apply keeps_flags_ret]. Qed.

Lemma keeps_flags_smooth_blink_leds m c D : keeps_flags (smooth_blink_leds m c D).
Proof.
  rewrite smooth_blink_leds_unfold. apply keeps_flags_for_each. intros _.
  unfold blink_once, blink_rise, blink_fall. cbv zeta.
  apply keeps_flags_bind; [|intros _].
  { apply keeps_flags_for_each. intro j.
    apply keeps_flags_bind; [|intros _; apply keeps_flags_k_msleep].
    apply keeps_flags_for_each. intro led.
    apply keeps_flags_when, keeps_flags_set. }
  apply keeps_flags_bind; [apply keeps_flags_k_msleep | intros _].
  apply keeps_flags_bind; [|intros _; apply keeps_flags_k_msleep].
  apply keeps_flags_for_each. intro j.
  apply keeps_flags_bind; [|intros _; apply keeps_flags_k_msleep].
  apply keeps_flags_for_each. intro led.
  apply keeps_flags_when, keeps_flags_bind; [apply keeps_flags_get | intro cur; apply keeps_flags_set].
Qed.

Lemma smooth_blink_leds_keeps_checking m c D st :
  is_connection_checking (store_of (smooth_blink_leds m c D st)) = is_connection_checking st.
Proof.
  pose proof (keeps_flags_smooth_blink_leds m c D st) as H.
  unfold flags in H. congruence.
Qed.

Section ConnectionCheckRuns.

Variable NONE : Z.

Lemma trace_check_handler_disconnected st :
  is_connection_checking st = true ->
  usb_conn_state st = NONE ->
  trace_of (check_bluetooth_connection_handler NONE false st) =
    disconnect_blink_trace ++ [EvReschedule check_ble_conn_work (K_SECONDS 4)] /\
  is_connection_checking (store_of (check_bluetooth_connection_handler NONE false st)) = true.
Proof.
  intros Hc Hu.
  rewrite check_handler_disconnected
    by (try exact Hc; rewrite Hu, Z.eqb_refl; reflexivity).
  rewrite trace_bind, store_bind, disconnect_blink_any_store.
  split; [reflexivity|].
  unfold k_work_reschedule, emit, store_of at 1; cbn [fst snd].
  rewrite smooth_blink_leds_keeps_checking. exact Hc.
Qed.

(** Repeated runs of the handler. *)

Lemma check_tick_eq o st :
  check_tick NONE o st =
  check_bluetooth_connection_handler NONE (obs_ble_connected o)
    (store_of (set_usb_conn_state (obs_usb_conn_state o) st)).
Proof.
  unfold check_tick, bind. cbn [set_usb_conn_state store_of fst snd app].
  destruct (check_bluetooth_connection_handler NONE (obs_ble_connected o) _)
    as [[u s] t].
  reflexivity.
Qed.

Lemma check_tick_idle o st :
  is_connection_checking st = false ->
  trace_of (check_tick NONE o st) = [] /\
  is_connection_checking (store_of (check_tick NONE o st)) = false.
Proof.
  intro H. rewrite check_tick_eq, check_handler_idle by exact H.
  split; [reflexivity | exact H].
Qed.

Lemma check_tick_disconnected o st :
  is_connection_checking st = true ->
  connectivity NONE o = false ->
  blinked_and_rescheduled (trace_of (check_tick NONE o st)) /\
  is_connection_checking (store_of (check_tick NONE o st)) = true.
Proof.
  intros H Hd. rewrite check_tick_eq.
  unfold connectivity in Hd. apply orb_false_iff in Hd as [Hb Hu].
  rewrite Hb.
  apply negb_false_iff, Z.eqb_eq in Hu.
  apply trace_check_handler_disconnected; [exact H | exact Hu].
Qed.

Lemma check_run_idle st run st' :
  check_run NONE st run st' ->
  is_connection_checking st = false ->
  Forall (fun p => snd p = []) run /\ is_connection_checking st' = false.
Proof.
  induction 1 as [st | st st1 st2 o tr rest Htick Hrun IH]; intro Hc.
  - split; [constructor | exact Hc].
  - destruct (check_tick_idle o st Hc) as [Ht Hs].
    rewrite Htick in Ht, Hs. cbn in Ht, Hs.
    destruct (IH Hs) as [Hall Hend].
    split; [constructor; [exact Ht | exact Hall] | exact Hend].
Qed.

Lemma check_run_disconnected st run st' :
  check_run NONE st run st' ->
  is_connection_checking st = true ->
  Forall (fun p => connectivity NONE (fst p) = false) run ->
  Forall (fun p => blinked_and_rescheduled (snd p)) run /\
  is_connection_checking st' = true.
Proof.
  induction 1 as [st | st st1 st2 o tr rest Htick Hrun IH]; intros Hc Hobs.
  - split; [constructor | exact Hc].
  - inversion Hobs as [|p ps Ho Hrest]; subst.
    destruct (check_tick_disconnected o st Hc Ho) as [Ht Hs].
    rewrite Htick in Ht, Hs. cbn in Ht, Hs.
    destruct (IH Hs Hrest) as [Hall Hend].
    split; [constructor; [exact Ht | exact Hall] | exact Hend].
Qed.

(** The handler always returns, so every sequence of observations has
    its run. *)
Lemma check_run_total obs : forall st,
  check_run NONE st (fst (run_checks NONE obs st)) (snd (run_checks NONE obs st)) /\
  map fst (fst (run_checks NONE obs st)) = obs.
Proof.
  induction obs as [|o obs IH]; intro st.
  - split; [constructor | reflexivity].
  - cbn [run_checks].
    destruct (IH (store_of (check_tick NONE o st))) as [Hrun Hobs].
    destruct (run_checks NONE obs (store_of (check_tick NONE o st))) as [rest st2].
    cbn [fst snd] in *. split.
    + apply check_run_step with (st1 := store_of (check_tick NONE o st)); [|exact Hrun].
      destruct (check_tick NONE o st) as [[[] s] t]. reflexivity.
    + cbn [map fst]. rewrite Hobs. reflexivity.
Qed.

End ConnectionCheckRuns.

(** C5, as the code has it: when the disconnect-check handler runs with
    the checking flag set, BLE not connected and no USB, it blinks with
    mask 0b0001, which selects LED index 3: every brightness write goes
    to that LED, there is exactly one repetition (one rising and one
    falling ramp of 101 writes each) at the 300 ms disconnect duration,
    and the work item is rearmed 4 s later. *)
Theorem check_handler_blinks_last_led (NONE : Z) (st : Store) :
  is_connection_checking st = true ->
  usb_conn_state st = NONE ->
  let tr := trace_of (check_bluetooth_connection_handler NONE false st) in
  tr = trace_of (smooth_blink_leds 1 1 300 st)
         ++ [EvReschedule check_ble_conn_work 4000] /\
  writes_only_to LED_4 tr /\
  led_id LED_4 = 3 /\
  length (writes_to LED_4 tr) = 202%nat /\
  blinks (300 ÷ 200) 101 1 (trace_of (smooth_blink_leds 1 1 300 st)).
Proof.
  intros Hc Hu. cbv zeta.
  destruct (trace_check_handler_disconnected NONE st Hc Hu) as [E _].
  rewrite E.
  change (smooth_blink_leds 1 1 300 st)
    with (smooth_blink_leds 1 1 FADE_DURATION_DISCONNECT_MS st).
  rewrite disconnect_blink_any_store.
  split; [reflexivity|].
  split; [apply writes_only_to_b_sound; vm_compute; reflexivity|].
  split; [reflexivity|].
  split; [vm_compute; reflexivity|].
  rewrite <- (disconnect_blink_any_store st).
  apply (blinks_smooth_blink_leds 1 1 FADE_DURATION_DISCONNECT_MS st).
Qed.

(** C6: run after run of the disconnect-check handler.  With the flag
    clear a run does nothing: no event, store unchanged.  With the flag
    set and BLE connected or USB not none, the run clears the flag
    without any event, and every later run (the flag not being set again)
    is silent too.  With the flag set and connectivity absent at every
    observation, every run blinks and rearms the work item, for
    observation sequences of any length: the events of each such run are
    the blink of LED index 3 written out (the values 0..100, the hold, the
    falling values from 100, the hold, with a sleep of 300/200 ms after
    every value) followed by the reschedule of the check 4000 ms later. *)
Theorem check_loop (NONE : Z) :
  (forall ble st,
      is_connection_checking st = false ->
      check_bluetooth_connection_handler NONE ble st = (tt, st, [])) /\
  (forall ble st,
      is_connection_checking st = true ->
      ble = true \/ usb_conn_state st <> NONE ->
      let r := check_bluetooth_connection_handler NONE ble st in
      r = set_is_connection_checking false st /\
      trace_of r = [] /\
      is_connection_checking (store_of r) = false /\
      forall run st',
        check_run NONE (store_of r) run st' ->
        Forall (fun p => snd p = []) run /\ is_connection_checking st' = false) /\
  (forall st,
      is_connection_checking st = true ->
      (forall run st',
          check_run NONE st run st' ->
          Forall (fun p => connectivity NONE (fst p) = false) run ->
          Forall (fun p => snd p = single_led_blink LED_4 (300 ÷ 200)
                                   ++ [EvReschedule check_ble_conn_work 4000]) run /\
          is_connection_checking st' = true) /\
      (forall obs, exists run st',
          check_run NONE st run st' /\ map fst run = obs)).
Proof.
  split; [|split].
  - intros ble st H. apply check_handler_idle. exact H.
  - intros ble st H Hconn. cbv zeta.
    rewrite check_handler_connected.
    + split; [reflexivity|]. split; [reflexivity|]. split; [reflexivity|].
      intros run st' Hrun. apply (check_run_idle _ _ _ _ Hrun). reflexivity.
    + exact H.
    + destruct Hconn as [-> | Hu]; [reflexivity|].
      apply Z.eqb_neq in Hu. rewrite Hu. apply orb_true_r.
  - intros st H. split.
    + intros run st' Hrun Hobs.
      destruct (check_run_disconnected _ _ _ _ Hrun H Hobs) as [Hall Hend].
      split; [|exact Hend].
      eapply Forall_impl; [|exact Hall].
      intros p Hp. apply blinked_and_rescheduled_explicit. exact Hp.
    + intro obs. destruct (check_run_total NONE obs st) as [Hrun Hobs].
      eexists; eexists; split; [exact Hrun | exact Hobs].
Qed.

Lemma check_handler_blinks_last_led_witness :
  length (writes_to LED_4
            (trace_of (check_bluetooth_connection_handler 0 false (checking_store 0))))
  = 202%nat.
Proof.
  exact (proj1 (proj2 (proj2 (proj2
           (check_handler_blinks_last_led 0 (checking_store 0) eq_refl eq_refl))))).
Defined.

(** C5, as the claim words it, fails: the blink of the disconnect check
    does not write to LED index 0 only; its first event is a write to LED
    index 3. *)
Lemma check_handler_not_first_led :
  ~ writes_only_to LED_1
      (trace_of (check_bluetooth_connection_handler 0 false (checking_store 0))).
Proof.
  intro H.
  assert (E : hd_error (trace_of (check_bluetooth_connection_handler 0 false
                                    (checking_store 0)))
              = Some (EvLedSetBrightness LED_4 0)) by (vm_compute; reflexivity).
  destruct (trace_of (check_bluetooth_connection_handler 0 false (checking_store 0)))
    as [|e tr]; [discriminate E|].
  injection E as ->. inversion H as [|e' tr' He Htr]; subst. discriminate He.
Qed.

Lemma check_loop_witness :
  check_bluetooth_connection_handler 0 true (initial_store 0) = (tt, initial_store 0, []) /\
  trace_of (check_bluetooth_connection_handler 0 true (checking_store 1)) = [] /\
  Forall (fun p => snd p = single_led_blink LED_4 (300 ÷ 200)
                           ++ [EvReschedule check_ble_conn_work 4000])
         (fst (run_checks 0 [mkObservation false 0; mkObservation false 0]
                          (checking_store 0))).
Proof.
  split; [|split].
  - apply (proj1 (check_loop 0)). reflexivity.
  - apply (proj1 (proj2 (proj1 (proj2 (check_loop 0)) true (checking_store 1)
                          eq_refl (or_introl eq_refl)))).
  - destruct (check_run_total 0 [mkObservation false 0; mkObservation false 0]
                              (checking_store 0)) as [Hrun Hobs].
    refine (proj1 (proj1 (proj2 (proj2 (check_loop 0)) (checking_store 0) eq_refl)
                     _ _ Hrun _)).
    apply Forall_map with (f := fst) (P := fun o => connectivity 0 o = false).
    rewrite Hobs. repeat constructor.
Defined.

(** ** BLE profile listener and handler *)

Lemma ble_profile_listener_ignored ev st :
  2 < index ev -> ble_profile_listener (Some ev) st = (ZMK_EV_EVENT_BUBBLE, st, []).
Proof.
  intro H. unfold ble_profile_listener.
  destruct (Z.leb_spec (index ev) 2); [lia | reflexivity].
Qed.

Lemma ble_profile_listener_accepted ev st :
  index ev <= 2 ->
  ble_profile_listener (Some ev) st =
  (ZMK_EV_EVENT_BUBBLE,
   store_of (set_profile_count_blink (index ev) st),
   [EvScheduleForQueue ble_profile_work K_NO_WAIT]).
Proof.
  intro H. unfold ble_profile_listener.
  destruct (Z.leb_spec (index ev) 2); [reflexivity | lia].
Qed.

(** C7: a profile-changed event with index above 2 schedules nothing and
    leaves the store, the stored profile index included, as it was.  With
    an index in [0,2] the listener stores the index and schedules the
    profile work at once; the handler then blinks with mask
    [0b1000 >> index], which selects the LED of that index, exactly once
    at the 400 ms profile duration (and starts the disconnect check if it
    was not running). *)
Theorem ble_profile_listener_range (ev : zmk_ble_active_profile_changed) (st : Store) :
  (2 < index ev ->
   ble_profile_listener (Some ev) st = (ZMK_EV_EVENT_BUBBLE, st, [])) /\
  (0 <= index ev <= 2 ->
   let r := ble_profile_listener (Some ev) st in
   profile_count_blink (store_of r) = index ev /\
   trace_of r = [EvScheduleForQueue ble_profile_work K_NO_WAIT] /\
   let h := trace_of (ble_profile_handler (store_of r)) in
   let blink := trace_of (smooth_blink_leds (Z.shiftr 8 (index ev)) 1 400 (store_of r)) in
   h = blink ++ (if is_connection_checking st then []
                 else [EvReschedule check_ble_conn_work 4000]) /\
   blinks (400 ÷ 200) 101 1 blink /\
   (forall led, led_id led = index ev ->
                writes_only_to led h /\ length (writes_to led h) = 202%nat)).
Proof.
  split; [apply ble_profile_listener_ignored|].
  intros Hi. cbv zeta.
  rewrite ble_profile_listener_accepted by lia.
  split; [reflexivity|]. split; [reflexivity|].
  split; [|split].
  - destruct ev as [i]; cbn [index] in *.
    destruct st as [chk usb prof cache lost].
    assert (Hcases : i = 0 \/ i = 1 \/ i = 2) by lia.
    destruct Hcases as [-> | [-> | ->]]; destruct chk; vm_compute; reflexivity.
  - apply (blinks_smooth_blink_leds (Z.shiftr 8 (index ev)) 1 400).
  - intros led Hled.
    destruct ev as [i]; cbn [index] in *.
    destruct st as [chk usb prof cache lost].
    subst i.
    destruct led, chk;
      (split; [apply writes_only_to_b_sound; vm_compute; reflexivity
              | vm_compute; reflexivity]).
Qed.

Lemma ble_profile_listener_range_witness :
  ble_profile_listener (Some (mkProfileChanged 3)) (initial_store 0)
    = (ZMK_EV_EVENT_BUBBLE, initial_store 0, []) /\
  profile_count_blink
    (store_of (ble_profile_listener (Some (mkProfileChanged 2)) (initial_store 0))) = 2.
Proof.
  split.
  - apply (proj1 (ble_profile_listener_range (mkProfileChanged 3) (initial_store 0))).
    reflexivity.
  - apply (proj2 (ble_profile_listener_range (mkProfileChanged 2) (initial_store 0))).
    simpl. lia.
Defined.

(** ** Further properties: the end state of the fades *)

Lemma trace_for_each_snoc {A : Type} (l : list A) (x : A) (body : A -> M unit) : forall st,
  trace_of (for_each (l ++ [x]) body st) =
  trace_of (for_each l body st) ++ trace_of (body x (store_of (for_each l body st))).
Proof.
  induction l as [|y l IH]; intro st.
  - cbn [app]. rewrite trace_for_each_cons. cbn [for_each ret trace_of store_of fst snd app].
    apply app_nil_r.
  - cbn [app]. rewrite !trace_for_each_cons, !store_for_each_cons, IH, app_assoc. reflexivity.
Qed.

Lemma store_for_each_snoc {A : Type} (l : list A) (x : A) (body : A -> M unit) : forall st,
  store_of (for_each (l ++ [x]) body st) = store_of (body x (store_of (for_each l body st))).
Proof.
  induction l as [|y l IH]; intro st.
  - cbn [app]. rewrite store_for_each_cons. reflexivity.
  - cbn [app]. rewrite !store_for_each_cons, IH. reflexivity.
Qed.

Lemma range_up_steps_snoc :
  range_up 0 LED_FADE_STEPS = removelast (range_up 0 LED_FADE_STEPS) ++ [100].
Proof. reflexivity. Qed.

Lemma range_down_steps_snoc :
  range_down LED_FADE_STEPS 0 = removelast (range_down LED_FADE_STEPS 0) ++ [0].
Proof. reflexivity. Qed.

Lemma last_error_snoc {A : Type} (l : list A) (x : A) : last_error (l ++ [x]) = Some x.
Proof. rewrite last_error_app. reflexivity. Qed.

Lemma keeps_flags_fade_in_led led D : keeps_flags (fade_in_led led D).
Proof.
  unfold fade_in_led. apply keeps_flags_for_each. intro i.
  apply keeps_flags_bind; [apply keeps_flags_set | intros _; apply keeps_flags_k_msleep].
Qed.

Lemma keeps_flags_fade_out_all_leds D : keeps_flags (fade_out_all_leds D).
Proof.
  unfold fade_out_all_leds. apply keeps_flags_for_each. intro j.
  apply keeps_flags_bind; [|intros _; apply keeps_flags_k_msleep].
  apply keeps_flags_for_each. intro led.
  apply keeps_flags_bind; [apply keeps_flags_get | intro cur; apply keeps_flags_set].
Qed.

Lemma silent_on_fade_in_led k led D : led <> k -> silent_on k (fade_in_led led D).
Proof.
  intro Hne. unfold fade_in_led. apply silent_on_for_each. intro i.
  apply silent_on_bind; [apply silent_on_set; exact Hne | intros _; apply silent_on_k_msleep].
Qed.

Lemma fade_in_led_end led D st :
  led_brightness (store_of (fade_in_led led D st)) led = LED_STATUS_ON /\
  last_hw led (trace_of (fade_in_led led D st)) = Some LED_STATUS_ON.
Proof.
  unfold fade_in_led, last_hw. rewrite range_up_steps_snoc.
  rewrite store_for_each_snoc, trace_for_each_snoc, hw_writes_app, last_error_app.
  set (st' := store_of (for_each _ _ st)).
  split; destruct led; reflexivity.
Qed.

(** X1: [fade_in_led] ends with its LED at full brightness, in the cache
    and on the hardware, whatever the duration and the brightness before;
    the other LEDs get no driver call and keep their cache entry, and the
    connection flag, USB state and profile index are untouched. *)
Theorem fade_in_led_final (led : LedType) (D : Z) (st : Store) :
  let r := fade_in_led led D st in
  led_brightness (store_of r) led = 100 /\
  last_hw led (trace_of r) = Some 100 /\
  (forall k, k <> led ->
             hw_writes k (trace_of r) = [] /\
             led_brightness (store_of r) k = led_brightness st k) /\
  flags (store_of r) = flags st.
Proof.
  cbv zeta.
  destruct (fade_in_led_end led D st) as [Hc Hh].
  split; [exact Hc|]. split; [exact Hh|]. split.
  - intros k Hk. apply silent_on_fade_in_led. congruence.
  - apply keeps_flags_fade_in_led.
Qed.

Lemma fade_in_led_final_witness :
  hw_writes LED_1 (trace_of (fade_in_led LED_2 400 (initial_store 0))) = [].
Proof.
  apply (proj1 (proj2 (proj2 (fade_in_led_final LED_2 400 (initial_store 0)))) LED_1).
  discriminate.
Defined.

Lemma fade_out_step_zero st led :
  led_brightness (store_of (fade_out_step 0 st)) led = 0 /\
  hw_writes led (trace_of (fade_out_step 0 st)) = [HwLevel 0].
Proof.
  rewrite fade_out_step_cache, fade_out_step_trace.
  assert (E : forall i, to_uint8 (led_brightness st i * 0 ÷ LED_FADE_STEPS) = 0)
    by (intro i; rewrite Z.mul_0_r; reflexivity).
  split; [apply E|].
  cbn [map all_leds]. rewrite !E. destruct led; reflexivity.
Qed.

Lemma fade_out_all_leds_end D st led :
  led_brightness (store_of (fade_out_all_leds D st)) led = LED_STATUS_OFF /\
  last_hw led (trace_of (fade_out_all_leds D st)) = Some LED_STATUS_OFF.
Proof.
  rewrite fade_out_all_leds_unfold, range_down_steps_snoc. unfold last_hw.
  rewrite store_for_each_snoc, trace_for_each_snoc, hw_writes_app, last_error_app.
  set (st' := store_of (for_each _ _ st)).
  rewrite store_bind, trace_bind, hw_writes_app.
  destruct (fade_out_step_zero st' led) as [Hc Hw].
  split.
  - exact Hc.
  - rewrite Hw. reflexivity.
Qed.

(** X2: [fade_out_all_leds] ends with every LED dark, in the cache and
    on the hardware, from any store and for any duration, and leaves the
    connection flag, USB state and profile index untouched. *)
Theorem fade_out_all_leds_final (D : Z) (st : Store) :
  let r := fade_out_all_leds D st in
  all_dark (store_of r) /\
  (forall led, last_hw led (trace_of r) = Some 0) /\
  flags (store_of r) = flags st.
Proof.
  cbv zeta. split; [|split].
  - intro led. apply fade_out_all_leds_end.
  - intro led. apply fade_out_all_leds_end.
  - apply keeps_flags_fade_out_all_leds.
Qed.

Lemma decay_below_linear js :
  Forall (fun j => 0 <= j <= 100) js ->
  forall B c (k : nat) v j,
    0 <= c <= B ->
    nth_error (decay c js) k = Some v ->
    nth_error js k = Some j ->
    0 <= v <= B * j ÷ 100.
Proof.
  induction 1 as [|j0 js Hj0 Hjs IH]; intros B c k v j Hc Hv Hj.
  - destruct k; discriminate.
  - pose proof (scale_bounds c j0 (proj1 Hc) Hj0) as Hb. unfold LED_FADE_STEPS in Hb.
    destruct k as [|k].
    + cbn in Hv, Hj. injection Hj as <-. injection Hv as <-.
      unfold LED_FADE_STEPS. split; [lia|].
      apply Z.quot_le_mono; [lia|]. apply Z.mul_le_mono_nonneg_r; lia.
    + cbn [decay nth_error] in Hv, Hj. unfold LED_FADE_STEPS in Hv at 1.
      apply (IH B (c * j0 ÷ 100) k v j); [lia | | exact Hj].
      exact Hv.
Qed.

(** X3: the falling ramp of [fade_out_all_leds] is never brighter than
    the linear one: for an LED cached at [B] (a [uint8_t] value) at the
    start, the value written at descending step [j = 100 - k] lies between
    0 and [B*j/100]. *)
Theorem fade_out_all_leds_below_linear (led : LedType) (D : Z) (st : Store) (k : nat) (v : Z) :
  0 <= led_brightness st led <= 255 ->
  nth_error (writes_to led (trace_of (fade_out_all_leds D st))) k = Some v ->
  0 <= v <= led_brightness st led * (100 - Z.of_nat k) ÷ 100.
Proof.
  intros Hr Hv.
  rewrite writes_to_fade_out_all_leds in Hv by exact Hr.
  assert (Hk : (k <= 100)%nat).
  { apply Nat.lt_succ_r. change 101%nat with (length (range_down LED_FADE_STEPS 0)).
    rewrite <- (decay_length (led_brightness st led)).
    apply nth_error_Some. congruence. }
  apply (decay_below_linear _ range_down_steps_bounds _ (led_brightness st led) k v);
    [lia | exact Hv | apply range_down_steps_nth; exact Hk].
Qed.

Lemma fade_out_all_leds_below_linear_witness :
  0 <= 97 <= led_brightness lit_store LED_1 * (100 - Z.of_nat 2) ÷ 100.
Proof.
  apply (fade_out_all_leds_below_linear LED_1 400 lit_store 2 97).
  - unfold lit_store, LED_STATUS_ON. simpl. lia.
  - vm_compute. reflexivity.
Defined.

(** ** Further properties: what a blink sends to each LED *)

Lemma blink_rise_unfold m d :
  blink_rise m d = for_each (range_up 0 LED_FADE_STEPS) (fun j => rise_step m j ;; k_msleep d).
Proof. reflexivity. Qed.

Lemma blink_fall_unfold m d :
  blink_fall m d = for_each (range_down LED_FADE_STEPS 0) (fun j => fall_step m j ;; k_msleep d).
Proof. reflexivity. Qed.

Ltac by_mask_cases m led :=
  cbn [for_each all_leds];
  destruct led;
  destruct (in_mask m LED_1), (in_mask m LED_2), (in_mask m LED_3), (in_mask m LED_4);
  reflexivity.

Lemma rise_step_cache m j st led :
  led_brightness (store_of (rise_step m j st)) led =
  if in_mask m led then to_uint8 (LED_STATUS_ON * j ÷ LED_FADE_STEPS)
  else led_brightness st led.
Proof. unfold rise_step. by_mask_cases m led. Qed.

Lemma rise_step_writes m j st led :
  writes_to led (trace_of (rise_step m j st)) =
  if in_mask m led then [to_uint8 (LED_STATUS_ON * j ÷ LED_FADE_STEPS)] else [].
Proof. unfold rise_step. by_mask_cases m led. Qed.

Lemma fall_step_cache m j st led :
  led_brightness (store_of (fall_step m j st)) led =
  if in_mask m led then to_uint8 (led_brightness st led * j ÷ LED_FADE_STEPS)
  else led_brightness st led.
Proof. unfold fall_step. by_mask_cases m led. Qed.

Lemma fall_step_writes m j st led :
  writes_to led (trace_of (fall_step m j st)) =
  if in_mask m led then [to_uint8 (led_brightness st led * j ÷ LED_FADE_STEPS)] else [].
Proof. unfold fall_step. by_mask_cases m led. Qed.

Lemma fall_step_hw m j st led :
  hw_writes led (trace_of (fall_step m j st)) =
  if in_mask m led then [HwLevel (to_uint8 (led_brightness st led * j ÷ LED_FADE_STEPS))]
  else [].
Proof. unfold fall_step. by_mask_cases m led. Qed.

Lemma store_then_sleep (m : M unit) d st :
  store_of ((m ;; k_msleep d) st) = store_of (m st).
Proof. rewrite store_bind. reflexivity. Qed.

Lemma writes_then_sleep led (m : M unit) d st :
  writes_to led (trace_of ((m ;; k_msleep d) st)) = writes_to led (trace_of (m st)).
Proof. rewrite trace_bind, writes_to_app. cbn. apply app_nil_r. Qed.

Lemma rise_loop_writes m d led js :
  in_mask m led = true ->
  forall st,
    writes_to led (trace_of (for_each js (fun j => rise_step m j ;; k_msleep d) st)) =
    map (fun j => to_uint8 (LED_STATUS_ON * j ÷ LED_FADE_STEPS)) js.
Proof.
  intro Hm. induction js as [|j js IH]; intro st.
  - reflexivity.
  - rewrite trace_for_each_cons, writes_to_app, writes_then_sleep, rise_step_writes, Hm, IH.
    reflexivity.
Qed.

Lemma fall_loop_writes m d led js :
  in_mask m led = true ->
  Forall (fun j => 0 <= j <= 100) js ->
  forall st, 0 <= led_brightness st led <= 255 ->
  writes_to led (trace_of (for_each js (fun j => fall_step m j ;; k_msleep d) st)) =
  decay (led_brightness st led) js.
Proof.
  intro Hm. induction 1 as [|j js Hj Hjs IH]; intros st Hc.
  - reflexivity.
  - rewrite trace_for_each_cons, writes_to_app, writes_then_sleep, fall_step_writes, Hm.
    rewrite scale_no_wrap by assumption.
    rewrite IH.
    + rewrite store_then_sleep, fall_step_cache, Hm, scale_no_wrap by assumption.
      reflexivity.
    + rewrite store_then_sleep, fall_step_cache, Hm, scale_no_wrap by assumption.
      pose proof (scale_bounds _ j (proj1 Hc) Hj). lia.
Qed.

Lemma blink_rise_writes m d led st :
  in_mask m led = true ->
  writes_to led (trace_of (blink_rise m d st)) = range_up 0 LED_FADE_STEPS /\
  led_brightness (store_of (blink_rise m d st)) led = LED_STATUS_ON.
Proof.
  intro Hm. split.
  - rewrite blink_rise_unfold, rise_loop_writes by exact Hm. reflexivity.
  - rewrite blink_rise_unfold, range_up_steps_snoc, store_for_each_snoc, store_then_sleep.
    rewrite rise_step_cache, Hm. reflexivity.
Qed.

Lemma blink_fall_writes m d led st :
  in_mask m led = true ->
  0 <= led_brightness st led <= 255 ->
  writes_to led (trace_of (blink_fall m d st)) =
  decay (led_brightness st led) (range_down LED_FADE_STEPS 0).
Proof.
  intros Hm Hc. rewrite blink_fall_unfold.
  apply fall_loop_writes; [exact Hm | apply range_down_steps_bounds | exact Hc].
Qed.

Lemma blink_fall_end m d led st :
  in_mask m led = true ->
  led_brightness (store_of (blink_fall m d st)) led = LED_STATUS_OFF /\
  last_error (hw_writes led (trace_of (blink_fall m d st))) = Some (HwLevel LED_STATUS_OFF).
Proof.
  intro Hm.
  rewrite blink_fall_unfold, range_down_steps_snoc.
  rewrite store_for_each_snoc, trace_for_each_snoc, hw_writes_app, last_error_app.
  set (st' := store_of (for_each _ _ st)).
  rewrite store_then_sleep, trace_bind, hw_writes_app, fall_step_cache, fall_step_hw, Hm.
  rewrite Z.mul_0_r. split; reflexivity.
Qed.

Lemma trace_blink_once_eq m D st :
  trace_of (blink_once m D st) =
  trace_of (blink_rise m (D ÷ (2 * LED_FADE_STEPS)) st)
  ++ EvSleep BLINK_HOLD_DURATION_MS
  :: trace_of (blink_fall m (D ÷ (2 * LED_FADE_STEPS))
                 (store_of (blink_rise m (D ÷ (2 * LED_FADE_STEPS)) st)))
  ++ [EvSleep BLINK_HOLD_DURATION_MS].
Proof.
  unfold blink_once. cbv zeta. rewrite !trace_bind. reflexivity.
Qed.

Lemma store_blink_once_eq m D st :
  store_of (blink_once m D st) =
  store_of (blink_fall m (D ÷ (2 * LED_FADE_STEPS))
              (store_of (blink_rise m (D ÷ (2 * LED_FADE_STEPS)) st))).
Proof.
  unfold blink_once. cbv zeta. rewrite !store_bind. reflexivity.
Qed.

Lemma blink_once_writes m D led st :
  in_mask m led = true ->
  writes_to led (trace_of (blink_once m D st)) = blink_values.
Proof.
  intro Hm. rewrite trace_blink_once_eq.
  destruct (blink_rise_writes m (D ÷ (2 * LED_FADE_STEPS)) led st Hm) as [Hw Hc].
  rewrite writes_to_app. cbn [writes_to]. rewrite writes_to_app. cbn [writes_to].
  rewrite app_nil_r, Hw.
  rewrite blink_fall_writes; [rewrite Hc; reflexivity | exact Hm |].
  rewrite Hc. unfold LED_STATUS_ON. lia.
Qed.

Lemma blink_once_end m D led st :
  in_mask m led = true ->
  led_brightness (store_of (blink_once m D st)) led = LED_STATUS_OFF /\
  last_hw led (trace_of (blink_once m D st)) = Some LED_STATUS_OFF.
Proof.
  intro Hm. rewrite store_blink_once_eq, trace_blink_once_eq. unfold last_hw.
  set (st1 := store_of (blink_rise _ _ st)).
  destruct (blink_fall_end m (D ÷ (2 * LED_FADE_STEPS)) led st1 Hm) as [Hc Hh].
  split; [exact Hc|].
  rewrite hw_writes_app, last_error_app. cbn [hw_writes].
  rewrite hw_writes_app, last_error_app. cbn [hw_writes last_error].
  rewrite Hh. reflexivity.
Qed.

Lemma blink_loop_writes {A : Type} m D led (l : list A) :
  in_mask m led = true ->
  forall st,
    writes_to led (trace_of (for_each l (fun _ => blink_once m D) st)) =
    concat (repeat blink_values (length l)).
Proof.
  intro Hm. induction l as [|x l IH]; intro st.
  - reflexivity.
  - rewrite trace_for_each_cons, writes_to_app, blink_once_writes, IH by exact Hm.
    reflexivity.
Qed.

Lemma range_up_count_length c : length (range_up 0 (c - 1)) = Z.to_nat c.
Proof. rewrite range_up_length. f_equal. lia. Qed.

(** X4: what [smooth_blink_leds] sends to an LED depends only on the
    mask bit and the repeat count.  An LED whose bit is set receives, per
    repetition, the rising ramp 0, 1, ..., 100 followed by the falling ramp
    from 100, whatever its brightness was before and whatever the
    duration; an LED whose bit is clear receives nothing and keeps its
    cache entry. *)
Theorem smooth_blink_leds_writes (m c D : Z) (st : Store) (led : LedType) :
  let r := smooth_blink_leds m c D st in
  (in_mask m led = true ->
   writes_to led (trace_of r) = concat (repeat blink_values (Z.to_nat c))) /\
  (in_mask m led = false ->
   hw_writes led (trace_of r) = [] /\
   led_brightness (store_of r) led = led_brightness st led).
Proof.
  cbv zeta. split.
  - intro Hm. rewrite smooth_blink_leds_unfold, blink_loop_writes by exact Hm.
    rewrite range_up_count_length. reflexivity.
  - intro Hm. apply silent_on_smooth_blink_leds. exact Hm.
Qed.

Lemma smooth_blink_leds_writes_witness :
  writes_to LED_2 (trace_of (smooth_blink_leds 12 3 800 lit_store))
    = concat (repeat blink_values (Z.to_nat 3)) /\
  hw_writes LED_3 (trace_of (smooth_blink_leds 12 3 800 lit_store)) = [].
Proof.
  split.
  - apply (proj1 (smooth_blink_leds_writes 12 3 800 lit_store LED_2)). reflexivity.
  - apply (proj2 (smooth_blink_leds_writes 12 3 800 lit_store LED_3)). reflexivity.
Defined.

Lemma smooth_blink_leds_no_repeat m c D st :
  c <= 0 -> smooth_blink_leds m c D st = (tt, st, []).
Proof.
  intro Hc. rewrite smooth_blink_leds_unfold. unfold range_up.
  replace (Z.to_nat (c - 1 - 0 + 1)) with 0%nat by lia. reflexivity.
Qed.

Lemma blink_loop_end {A : Type} m D led (l : list A) (x : A) st :
  in_mask m led = true ->
  led_brightness (store_of (for_each (l ++ [x]) (fun _ => blink_once m D) st)) led
    = LED_STATUS_OFF /\
  last_hw led (trace_of (for_each (l ++ [x]) (fun _ => blink_once m D) st))
    = Some LED_STATUS_OFF.
Proof.
  intro Hm. rewrite store_for_each_snoc, trace_for_each_snoc.
  set (st' := store_of (for_each l _ st)).
  destruct (blink_once_end m D led st' Hm) as [Hc Hh].
  split; [exact Hc|].
  unfold last_hw in *. rewrite hw_writes_app, last_error_app.
  destruct (last_error (hw_writes led (trace_of (blink_once m D st')))); [exact Hh | discriminate Hh].
Qed.

Lemma range_up_count_snoc c :
  0 < c -> exists l, range_up 0 (c - 1) = l ++ [c - 1].
Proof.
  intro Hc. unfold range_up.
  replace (Z.to_nat (c - 1 - 0 + 1)) with (S (Z.to_nat (c - 1))) by lia.
  rewrite seq_S, map_app. eexists. cbn [map]. f_equal. f_equal. lia.
Qed.

(** X5: the end state of [smooth_blink_leds].  With a positive repeat
    count every LED of the mask ends dark, in the cache and on the
    hardware; with a repeat count of zero or below nothing happens at all
    (no event, store unchanged).  In every case the connection flag, USB
    state and profile index are untouched. *)
Theorem smooth_blink_leds_final (m c D : Z) (st : Store) :
  let r := smooth_blink_leds m c D st in
  (0 < c ->
   forall led, in_mask m led = true ->
               led_brightness (store_of r) led = 0 /\ last_hw led (trace_of r) = Some 0) /\
  (c <= 0 -> r = (tt, st, [])) /\
  flags (store_of r) = flags st.
Proof.
  cbv zeta. split; [|split].
  - intros Hc led Hm. rewrite smooth_blink_leds_unfold.
    destruct (range_up_count_snoc c Hc) as [l ->].
    apply (blink_loop_end m D led l (c - 1) st Hm).
  - apply smooth_blink_leds_no_repeat.
  - apply keeps_flags_smooth_blink_leds.
Qed.

Lemma smooth_blink_leds_final_witness :
  led_brightness (store_of (smooth_blink_leds 8 1 400 lit_store)) LED_1 = 0 /\
  smooth_blink_leds 8 0 400 lit_store = (tt, lit_store, []).
Proof.
  split.
  - apply (proj1 (smooth_blink_leds_final 8 1 400 lit_store)); reflexivity.
  - apply (proj1 (proj2 (smooth_blink_leds_final 8 0 400 lit_store))). discriminate.
Defined.

(** ** Further properties: the mask *)

Lemma land_bit_eqb m n :
  0 <= n -> (Z.land m (Z.shiftl 1 n) =? 0) = negb (Z.testbit m n).
Proof.
  intro Hn. rewrite Z.shiftl_1_l.
  destruct (Z.testbit m n) eqn:Hb; cbn [negb].
  - apply Z.eqb_neq. intro E.
    assert (Ht : Z.testbit (Z.land m (2 ^ n)) n = true)
      by (rewrite Z.land_spec, Hb, Z.pow2_bits_true by exact Hn; reflexivity).
    rewrite E, Z.bits_0 in Ht. discriminate Ht.
  - apply Z.eqb_eq. apply Z.bits_inj'. intros i Hi.
    rewrite Z.land_spec, Z.bits_0, Z.pow2_bits_eqb by exact Hn.
    destruct (Z.eqb_spec n i) as [<- | _].
    + rewrite Hb. reflexivity.
    + apply andb_false_r.
Qed.

Lemma in_mask_testbit m k : in_mask m k = Z.testbit m (LED_COUNT - 1 - led_id k).
Proof.
  unfold in_mask. rewrite land_bit_eqb by (destruct k; cbn; lia).
  apply negb_involutive.
Qed.

Lemma in_mask_mod_16 m k : in_mask (m mod 16) k = in_mask m k.
Proof.
  rewrite !in_mask_testbit. change 16 with (2 ^ 4).
  apply Z.mod_pow2_bits_low. destruct k; cbn; lia.
Qed.

Lemma bind_ext {A B : Type} (m1 m2 : M A) (f1 f2 : A -> M B) st :
  m1 st = m2 st -> (forall a s, f1 a s = f2 a s) -> bind m1 f1 st = bind m2 f2 st.
Proof.
  intros Hm Hf. unfold bind. rewrite Hm.
  destruct (m2 st) as [[a s] t]. rewrite Hf. reflexivity.
Qed.

Lemma for_each_ext {A : Type} (b1 b2 : A -> M unit) :
  (forall x s, b1 x s = b2 x s) ->
  forall l s, for_each l b1 s = for_each l b2 s.
Proof.
  intros Hb l. induction l as [|x l IH]; intro s.
  - reflexivity.
  - rewrite !for_each_cons. apply bind_ext; [apply Hb | intros _ s'; apply IH].
Qed.

Lemma smooth_blink_leds_mask_ext m m' c D st :
  (forall k, in_mask m k = in_mask m' k) ->
  smooth_blink_leds m c D st = smooth_blink_leds m' c D st.
Proof.
  intro Hm. unfold smooth_blink_leds.
  apply for_each_ext. intros _ s. cbv zeta.
  apply bind_ext.
  { apply for_each_ext. intros j s1. apply bind_ext; [|reflexivity].
    apply for_each_ext. intros k s2. rewrite Hm. reflexivity. }
  intros _ s1. apply bind_ext; [reflexivity|].
  intros _ s2. apply bind_ext; [|reflexivity].
  apply for_each_ext. intros j s3. apply bind_ext; [|reflexivity].
  apply for_each_ext. intros k s4. rewrite Hm. reflexivity.
Qed.

(** X6: the blink mask is read most significant bit first over four
    bits: LED index [k] takes part exactly when bit [3 - k] of the mask is
    set, for any integer mask, and the bits above bit 3 are ignored: a
    mask and its remainder modulo 16 give the same blink. *)
Theorem smooth_blink_leds_mask_bits (m c D : Z) (st : Store) :
  (forall k, in_mask m k = Z.testbit m (3 - led_id k)) /\
  smooth_blink_leds m c D st = smooth_blink_leds (m mod 16) c D st.
Proof.
  split.
  - intro k. apply in_mask_testbit.
  - apply smooth_blink_leds_mask_ext. intro k. symmetry. apply in_mask_mod_16.
Qed.

(** ** Further properties: how long the animations sleep *)

Lemma total_sleep_app a b : total_sleep (a ++ b) = total_sleep a + total_sleep b.
Proof.
  induction a as [|e a IH]; [reflexivity|].
  destruct e; cbn [app total_sleep]; rewrite IH; lia.
Qed.

Lemma total_sleep_writes ws : Forall is_led_write ws -> total_sleep ws = 0.
Proof.
  induction 1 as [|e ws He Hws IH]; [reflexivity|].
  destruct e; cbn in He; try contradiction; exact IH.
Qed.

Lemma stepped_total_sleep d n tr :
  stepped d n tr -> total_sleep tr = Z.of_nat n * d.
Proof.
  induction 1 as [|n ws tr Hws Htr IH].
  - reflexivity.
  - rewrite total_sleep_app, total_sleep_writes by exact Hws.
    cbn [total_sleep]. rewrite IH. lia.
Qed.

Lemma blinks_total_sleep d steps n tr :
  blinks d steps n tr ->
  total_sleep tr = Z.of_nat n * (2 * (Z.of_nat steps * d) + 2 * BLINK_HOLD_DURATION_MS).
Proof.
  induction 1 as [|n up down tr Hup Hdown Htr IH].
  - reflexivity.
  - rewrite total_sleep_app. cbn [total_sleep]. rewrite total_sleep_app. cbn [total_sleep].
    rewrite (stepped_total_sleep _ _ _ Hup), (stepped_total_sleep _ _ _ Hdown), IH. lia.
Qed.

Lemma total_sleep_fade_in_led led D st :
  total_sleep (trace_of (fade_in_led led D st)) = 101 * (D ÷ 100).
Proof. rewrite (stepped_total_sleep _ _ _ (stepped_fade_in_led led D st)). reflexivity. Qed.

Lemma total_sleep_fade_out_all_leds D st :
  total_sleep (trace_of (fade_out_all_leds D st)) = 101 * (D ÷ 100).
Proof. rewrite (stepped_total_sleep _ _ _ (stepped_fade_out_all_leds D st)). reflexivity. Qed.

Lemma total_sleep_smooth_blink_leds m c D st :
  total_sleep (trace_of (smooth_blink_leds m c D st)) =
  Z.max 0 c * (202 * (D ÷ 200) + 200).
Proof.
  rewrite (blinks_total_sleep _ _ _ _ (blinks_smooth_blink_leds m c D st)).
  unfold BLINK_HOLD_DURATION_MS.
  replace (Z.of_nat (Z.to_nat c)) with (Z.max 0 c) by lia.
  change (Z.of_nat 101) with 101. ring.
Qed.

(** X7: the time the animations spend sleeping.  [fade_in_led] and
    [fade_out_all_leds] sleep 101 times [D/100] ms, so a duration below
    100 ms gives no delay at all and a multiple of 100 ms is overshot by
    one step; [smooth_blink_leds] sleeps, per repetition, 202 times
    [D/200] ms plus the two holds of 100 ms, and not at all for a repeat
    count of zero or below. *)
Theorem animation_sleep_time (D : Z) (st : Store) :
  (forall led, total_sleep (trace_of (fade_in_led led D st)) = 101 * (D ÷ 100)) /\
  total_sleep (trace_of (fade_out_all_leds D st)) = 101 * (D ÷ 100) /\
  (forall m c, total_sleep (trace_of (smooth_blink_leds m c D st))
               = Z.max 0 c * (202 * (D ÷ 200) + 200)) /\
  (0 <= D < 100 ->
   forall led, total_sleep (trace_of (fade_in_led led D st)) = 0) /\
  (0 <= D -> D mod 100 = 0 ->
   forall led, total_sleep (trace_of (fade_in_led led D st)) = D + D ÷ 100).
Proof.
  split; [intro led; apply total_sleep_fade_in_led|].
  split; [apply total_sleep_fade_out_all_leds|].
  split; [intros m c; apply total_sleep_smooth_blink_leds|].
  split.
  - intros HD led. rewrite total_sleep_fade_in_led, Z.quot_small by exact HD. reflexivity.
  - intros HD Hm led. rewrite total_sleep_fade_in_led.
    rewrite Z.quot_div_nonneg by lia.
    pose proof (Z.div_mod D 100). lia.
Qed.

Lemma animation_sleep_time_witness :
  total_sleep (trace_of (fade_in_led LED_1 99 (initial_store 0))) = 0 /\
  total_sleep (trace_of (fade_in_led LED_1 400 (initial_store 0))) = 400 + 400 ÷ 100.
Proof.
  split.
  - apply (proj1 (proj2 (proj2 (proj2 (animation_sleep_time 99 (initial_store 0)))))). lia.
  - apply (proj2 (proj2 (proj2 (proj2 (animation_sleep_time 400 (initial_store 0)))))).
    + lia.
    + reflexivity.
Defined.

(** ** Further properties: which LEDs the handlers light *)

Lemma hw_writes_nil_writes_to led tr : hw_writes led tr = [] -> writes_to led tr = [].
Proof.
  induction tr as [|e tr IH]; [reflexivity|].
  destruct e; cbn [hw_writes writes_to]; try exact IH;
    destruct (led_eqb led0 led); try discriminate; exact IH.
Qed.

Lemma blink_values_head : blink_values = 0 :: tl blink_values.
Proof. reflexivity. Qed.

Lemma smooth_blink_leds_lit m c D st led :
  in_mask m led = true -> 0 < c ->
  writes_to led (trace_of (smooth_blink_leds m c D st)) <> [].
Proof.
  intros Hm Hc. rewrite smooth_blink_leds_unfold, blink_loop_writes by exact Hm.
  rewrite range_up_count_length.
  replace (Z.to_nat c) with (S (Z.to_nat (c - 1))) by lia.
  cbn [repeat concat]. rewrite blink_values_head. discriminate.
Qed.

Lemma smooth_blink_leds_unlit m c D st led :
  in_mask m led = false ->
  writes_to led (trace_of (smooth_blink_leds m c D st)) = [].
Proof.
  intro Hm. apply hw_writes_nil_writes_to.
  apply silent_on_smooth_blink_leds. exact Hm.
Qed.

(** X8: the battery display, LED by LED, for every value the battery
    query can return: LED index 0 always blinks, LED index 1 blinks
    exactly above 30 %, LED index 2 exactly above 50 %, and LED index 3 is
    never written and keeps its cache entry. *)
Theorem battery_animation_handler_leds (level : Z) (st : Store) :
  let r := battery_animation_handler level st in
  writes_to LED_1 (trace_of r) <> [] /\
  (writes_to LED_2 (trace_of r) <> [] <-> 30 < level) /\
  (writes_to LED_3 (trace_of r) <> [] <-> 50 < level) /\
  hw_writes LED_4 (trace_of r) = [] /\
  led_brightness (store_of r) LED_4 = led_brightness st LED_4.
Proof.
  cbv zeta. unfold battery_animation_handler.
  assert (Hlit : forall m c led, in_mask m led = true -> 0 < c ->
                   writes_to led (trace_of (smooth_blink_leds m c FADE_DURATION_BATTERY_MS st))
                   <> [])
    by (intros; apply smooth_blink_leds_lit; assumption).
  assert (Hunlit : forall m c led, in_mask m led = false ->
                   writes_to led (trace_of (smooth_blink_leds m c FADE_DURATION_BATTERY_MS st))
                   = [])
    by (intros; apply smooth_blink_leds_unlit; assumption).
  assert (Hframe : forall m c, in_mask m LED_4 = false ->
             hw_writes LED_4 (trace_of (smooth_blink_leds m c FADE_DURATION_BATTERY_MS st)) = [] /\
             led_brightness (store_of (smooth_blink_leds m c FADE_DURATION_BATTERY_MS st)) LED_4
             = led_brightness st LED_4)
    by (intros m c H; apply silent_on_smooth_blink_leds; exact H).
  destruct (Z.leb_spec level 15);
    [| destruct (Z.leb_spec level 30);
       [| destruct (Z.leb_spec level 50);
          [| destruct (Z.leb_spec level 80)]]];
    (split; [apply Hlit; [reflexivity | lia]|]);
    (split; [first [ rewrite Hunlit by reflexivity;
                     split; [intro E; exfalso; apply E; reflexivity | intro; exfalso; lia]
                   | split; [intros _; lia | intros _; apply Hlit; [reflexivity | lia]] ]|]);
    (split; [first [ rewrite Hunlit by reflexivity;
                     split; [intro E; exfalso; apply E; reflexivity | intro; exfalso; lia]
                   | split; [intros _; lia | intros _; apply Hlit; [reflexivity | lia]] ]|]);
    apply Hframe; reflexivity.
Qed.

Lemma battery_animation_handler_leds_witness :
  writes_to LED_2 (trace_of (battery_animation_handler 45 (initial_store 0))) <> [].
Proof.
  apply (proj2 (proj1 (proj2 (battery_animation_handler_leds 45 (initial_store 0))))).
  lia.
Defined.

Lemma profile_mask_in_mask p k :
  0 <= p -> in_mask (profile_mask p) k = (led_id k =? p).
Proof.
  intro Hp. unfold profile_mask.
  assert (Hr : 0 <= Z.shiftr 8 p <= 8).
  { rewrite Z.shiftr_div_pow2 by exact Hp. split.
    - apply Z.div_pos; [lia | apply Z.pow_pos_nonneg; lia].
    - apply Z.div_le_upper_bound; [apply Z.pow_pos_nonneg; lia|].
      pose proof (Z.pow_pos_nonneg 2 p ltac:(lia) Hp). nia. }
  rewrite to_uint8_small by lia.
  rewrite in_mask_testbit, Z.shiftr_spec by (destruct k; cbn; lia).
  change 8 with (2 ^ 3). rewrite Z.pow2_bits_eqb by lia.
  destruct (Z.eqb_spec 3 (LED_COUNT - 1 - led_id k + p)) as [E | E],
           (Z.eqb_spec (led_id k) p) as [E' | E'];
    try reflexivity; exfalso; unfold LED_COUNT in E; lia.
Qed.

Lemma count_reschedules_app a b :
  count_reschedules (a ++ b) = (count_reschedules a + count_reschedules b)%nat.
Proof.
  induction a as [|e a IH]; [reflexivity|].
  destruct e; cbn [app count_reschedules]; rewrite IH; reflexivity.
Qed.

Lemma count_reschedules_blinks d steps n tr : blinks d steps n tr -> count_reschedules tr = 0%nat.
Proof.
  assert (Hw : forall ws, Forall is_led_write ws -> count_reschedules ws = 0%nat).
  { induction 1 as [|e ws He Hws IH]; [reflexivity|].
    destruct e; cbn in He; try contradiction; exact IH. }
  assert (Hs : forall k t, stepped d k t -> count_reschedules t = 0%nat).
  { induction 1 as [|k ws t Hws Ht IH]; [reflexivity|].
    rewrite count_reschedules_app, (Hw _ Hws). exact IH. }
  induction 1 as [|k up down t Hup Hdown Ht IH]; [reflexivity|].
  rewrite count_reschedules_app, (Hs _ _ Hup). cbn [count_reschedules Nat.add].
  rewrite count_reschedules_app, (Hs _ _ Hdown). exact IH.
Qed.

Lemma ble_profile_handler_eq st :
  let blink := smooth_blink_leds (profile_mask (profile_count_blink st)) 1
                                 FADE_DURATION_PROFILE_MS st in
  trace_of (ble_profile_handler st) =
    trace_of blink ++ (if is_connection_checking st then []
                       else [EvReschedule check_ble_conn_work (K_SECONDS 4)]) /\
  is_connection_checking (store_of (ble_profile_handler st)) = true /\
  led_brightness (store_of (ble_profile_handler st)) = led_brightness (store_of blink).
Proof.
  cbv zeta. unfold ble_profile_handler.
  rewrite trace_bind, store_bind.
  cbn [get_profile_count_blink trace_of store_of value_of fst snd app].
  fold (profile_mask (profile_count_blink st)).
  rewrite trace_bind, store_bind.
  set (s1 := store_of (smooth_blink_leds _ 1 FADE_DURATION_PROFILE_MS st)).
  assert (Hf : is_connection_checking s1 = is_connection_checking st)
    by apply smooth_blink_leds_keeps_checking.
  rewrite trace_bind, store_bind.
  cbn [get_is_connection_checking trace_of store_of value_of fst snd app].
  rewrite Hf. destruct (is_connection_checking st) eqn:E.
  - cbn [negb when ret trace_of store_of fst snd]. repeat split. exact Hf.
  - cbn [negb when]. repeat split.
Qed.

(** X9: [ble_profile_handler] from any store.  It blinks exactly the LED
    whose index is the stored profile index (none when that index is 4 or
    more; the index is taken below 32, where the shift is defined in C);
    afterwards the disconnect check is always marked active, and the
    check work item is rescheduled exactly when it was not active before:
    a check that is already running is not postponed. *)
Theorem ble_profile_handler_effect (st : Store) :
  let r := ble_profile_handler st in
  is_connection_checking (store_of r) = true /\
  count_reschedules (trace_of r) = (if is_connection_checking st then 0 else 1)%nat /\
  (0 <= profile_count_blink st < 32 ->
   forall k, hw_writes k (trace_of r) <> [] <-> led_id k = profile_count_blink st).
Proof.
  cbv zeta. destruct (ble_profile_handler_eq st) as [Ht [Hf _]].
  split; [exact Hf|]. split.
  - rewrite Ht, count_reschedules_app.
    rewrite (count_reschedules_blinks _ _ _ _
               (blinks_smooth_blink_leds _ 1 FADE_DURATION_PROFILE_MS st)).
    destruct (is_connection_checking st); reflexivity.
  - intros [Hp _] k. rewrite Ht, hw_writes_app.
    assert (Htail : hw_writes k (if is_connection_checking st then []
                                 else [EvReschedule check_ble_conn_work (K_SECONDS 4)]) = [])
      by (destruct (is_connection_checking st); reflexivity).
    rewrite Htail, app_nil_r.
    pose proof (profile_mask_in_mask (profile_count_blink st) k Hp) as Hm.
    destruct (Z.eqb_spec (led_id k) (profile_count_blink st)) as [E | E].
    + split; [intros _; exact E|]. intros _ Hnil.
      apply hw_writes_nil_writes_to in Hnil.
      revert Hnil. apply smooth_blink_leds_lit; [exact Hm | lia].
    + split; [|intro; contradiction]. intro Hw. exfalso. apply Hw.
      apply silent_on_smooth_blink_leds. exact Hm.
Qed.

Lemma ble_profile_handler_effect_witness :
  hw_writes LED_2 (trace_of (ble_profile_handler (initial_store 0))) <> [].
Proof.
  apply (proj2 (proj2 (ble_profile_handler_effect (initial_store 0)))).
  - simpl. lia.
  - reflexivity.
Defined.

(** ** Further properties: operations that do not touch the LEDs *)

Lemma quiet_ret {A : Type} (a : A) : quiet (ret a).
Proof. intro st. repeat split. constructor. Qed.

Lemma quiet_bind {A B : Type} (m : M A) (f : A -> M B) :
  quiet m -> (forall a, quiet (f a)) -> quiet (bind m f).
Proof.
  intros Hm Hf st.
  destruct (Hm st) as [Hc [Hn Ht]].
  destruct (Hf (value_of (m st)) (store_of (m st))) as [Hc' [Hn' Ht']].
  rewrite store_bind, trace_bind, Hc', Hn'.
  split; [exact Hc|]. split; [exact Hn|]. apply Forall_app. split; assumption.
Qed.

Lemma quiet_k_work_reschedule w d : quiet (k_work_reschedule w d).
Proof. intro st. repeat split. repeat constructor. Qed.

Lemma quiet_k_work_schedule_for_queue w d : quiet (k_work_schedule_for_queue w d).
Proof. intro st. repeat split. repeat constructor. Qed.

Lemma quiet_get_is_connection_checking : quiet get_is_connection_checking.
Proof. intro st. repeat split. constructor. Qed.

Lemma quiet_set_is_connection_checking b : quiet (set_is_connection_checking b).
Proof. intro st. repeat split. constructor. Qed.

Lemma quiet_get_usb_conn_state : quiet get_usb_conn_state.
Proof. intro st. repeat split. constructor. Qed.

Lemma quiet_set_usb_conn_state v : quiet (set_usb_conn_state v).
Proof. intro st. repeat split. constructor. Qed.

Lemma quiet_get_profile_count_blink : quiet get_profile_count_blink.
Proof. intro st. repeat split. constructor. Qed.

Lemma quiet_set_profile_count_blink v : quiet (set_profile_count_blink v).
Proof. intro st. repeat split. constructor. Qed.

Lemma quiet_when (b : bool) (m : M unit) : quiet m -> quiet (when b m).
Proof. intro Hm. destruct b; [exact Hm | apply quiet_ret]. Qed.

Lemma no_led_event_hw_writes led tr : Forall no_led_event tr -> hw_writes led tr = [].
Proof.
  induction 1 as [|e tr He Htr IH]; [reflexivity|].
  destruct e; cbn in He; try contradiction; exact IH.
Qed.

Lemma no_led_event_in_range tr : Forall no_led_event tr -> Forall write_in_range tr.
Proof.
  intro H. eapply Forall_impl; [|exact H].
  intros e He. destruct e; cbn in He; try contradiction; exact I.
Qed.

Lemma no_led_event_total_sleep tr : Forall no_led_event tr -> total_sleep tr = 0.
Proof.
  induction 1 as [|e tr He Htr IH]; [reflexivity|].
  destruct e; cbn in He; try contradiction; exact IH.
Qed.

Lemma quiet_tracks_hw {A : Type} (m : M A) : quiet m -> tracks_hw m.
Proof.
  intros Hm st led. destruct (Hm st) as [Hc [_ Ht]].
  rewrite (no_led_event_hw_writes led _ Ht), Hc. reflexivity.
Qed.

Lemma quiet_keeps_percent {A : Type} (m : M A) : quiet m -> keeps_percent m.
Proof.
  intros Hm st Hb. destruct (Hm st) as [Hc [Hn Ht]].
  split; [|split; [apply no_led_event_in_range; exact Ht | exact Hn]].
  intro led. rewrite Hc. apply Hb.
Qed.

Lemma quiet_keeps_dark {A : Type} (m : M A) : quiet m -> keeps_dark m.
Proof.
  intros Hm st Hd led. destruct (Hm st) as [Hc _]. rewrite Hc. apply Hd.
Qed.

Lemma quiet_silent_on {A : Type} (m : M A) k : quiet m -> silent_on k m.
Proof.
  intros Hm st. destruct (Hm st) as [Hc [_ Ht]].
  split; [apply no_led_event_hw_writes; exact Ht | rewrite Hc; reflexivity].
Qed.

Lemma quiet_ble_profile_listener ev : quiet (ble_profile_listener ev).
Proof.
  destruct ev as [ev|]; [|apply quiet_ret].
  unfold ble_profile_listener. destruct (index ev <=? 2); [|apply quiet_ret].
  apply quiet_bind; [apply quiet_set_profile_count_blink | intros _].
  apply quiet_bind; [apply quiet_k_work_schedule_for_queue | intros _; apply quiet_ret].
Qed.

Lemma quiet_usb_connection_listener ev : quiet (usb_connection_listener ev).
Proof.
  destruct ev as [ev|]; [|apply quiet_ret].
  unfold usb_connection_listener.
  apply quiet_bind; [apply quiet_set_usb_conn_state | intros _].
  apply quiet_bind; [apply quiet_k_work_schedule_for_queue | intros _; apply quiet_ret].
Qed.

Lemma quiet_usb_connection_handler P : quiet (usb_connection_handler P).
Proof.
  unfold usb_connection_handler.
  apply quiet_bind; [apply quiet_get_usb_conn_state | intro usb].
  destruct (usb =? P); [apply quiet_k_work_schedule_for_queue|].
  apply quiet_bind; [apply quiet_set_is_connection_checking | intros _].
  apply quiet_k_work_reschedule.
Qed.

Lemma quiet_show_battery : quiet show_battery.
Proof. apply quiet_k_work_schedule_for_queue. Qed.

Lemma quiet_hide_battery : quiet hide_battery.
Proof. apply quiet_ret. Qed.

(** ** Further properties: the USB handlers *)

Lemma ends_dark_fade_out_all_leds D : ends_dark (fade_out_all_leds D).
Proof. intros st led. apply fade_out_all_leds_end. Qed.

Lemma ends_dark_bind {A B : Type} (m : M A) (f : A -> M B) :
  (forall a, ends_dark (f a)) -> ends_dark (bind m f).
Proof.
  intros Hf st led.
  destruct (Hf (value_of (m st)) (store_of (m st)) led) as [Hc Hh].
  rewrite store_bind, trace_bind. split; [exact Hc|].
  unfold last_hw in *. rewrite hw_writes_app, last_error_app.
  destruct (last_error (hw_writes led (trace_of (f (value_of (m st)) (store_of (m st))))));
    [exact Hh | discriminate Hh].
Qed.

Lemma ends_dark_keeps_dark {A : Type} (m : M A) : ends_dark m -> keeps_dark m.
Proof. intros Hm st _ led. apply Hm. Qed.

Lemma ends_dark_usb_animation : ends_dark usb_animation.
Proof.
  unfold usb_animation.
  apply ends_dark_bind. intros _. apply ends_dark_bind. intros _.
  apply ends_dark_fade_out_all_leds.
Qed.

Lemma usb_animation_handler_eq S st :
  usb_animation_handler S st =
  if usb_conn_state st =? S then fade_out_all_leds FADE_DURATION_DISCONNECT_MS st
  else usb_animation st.
Proof.
  unfold usb_animation_handler, usb_animation.
  unfold bind at 1. cbn [get_usb_conn_state app].
  destruct (usb_conn_state st =? S).
  - destruct (fade_out_all_leds FADE_DURATION_DISCONNECT_MS st) as [[[] s] t]. reflexivity.
  - match goal with
    | |- _ = ?rhs => destruct rhs as [[[] s] t]
    end.
    reflexivity.
Qed.

Lemma ends_dark_usb_animation_handler S : ends_dark (usb_animation_handler S).
Proof.
  intros st led. rewrite usb_animation_handler_eq.
  destruct (usb_conn_state st =? S);
    [apply ends_dark_fade_out_all_leds | apply ends_dark_usb_animation].
Qed.

Lemma keeps_flags_usb_animation : keeps_flags usb_animation.
Proof.
  unfold usb_animation.
  apply keeps_flags_bind.
  { apply keeps_flags_for_each. intro led.
    apply keeps_flags_bind; [apply keeps_flags_fade_in_led | intros _; apply keeps_flags_k_msleep]. }
  intros _. apply keeps_flags_bind; [apply keeps_flags_k_msleep | intros _].
  apply keeps_flags_fade_out_all_leds.
Qed.

Lemma trace_usb_animation st :
  trace_of (usb_animation st) =
  concat (map (fun led => trace_of (fade_in_led led FADE_DURATION_USB_MS st)
                          ++ [EvSleep BLINK_HOLD_DURATION_MS]) all_leds)
  ++ EvSleep BLINK_HOLD_DURATION_MS
  :: trace_of (fade_out_all_leds FADE_DURATION_USB_MS lit_store).
Proof. vm_compute. reflexivity. Qed.

Lemma trace_usb_animation_any_store st : trace_of (usb_animation st) = usb_animation_trace.
Proof. vm_compute. reflexivity. Qed.

(** X10: [usb_animation_handler].  Unless the stored USB state is the
    suspend code, it fades the four LEDs in one after the other, each
    followed by the 100 ms hold, and then fades all of them out from full
    brightness: every LED receives the ramp 0..100 and then the falling
    ramp from 100, and the handler sleeps 2520 ms in all, from any store.
    With the suspend code it only runs the 300 ms fade-out.  In both cases
    every LED ends dark in the cache and on the hardware, and the
    connection flag, USB state and profile index are untouched. *)
Theorem usb_animation_handler_run (S : Z) (st : Store) :
  let r := usb_animation_handler S st in
  (usb_conn_state st <> S ->
   trace_of r =
     concat (map (fun led => trace_of (fade_in_led led 400 st) ++ [EvSleep 100]) all_leds)
     ++ EvSleep 100 :: trace_of (fade_out_all_leds 400 lit_store) /\
   (forall led, writes_to led (trace_of r) = blink_values) /\
   total_sleep (trace_of r) = 2520) /\
  (usb_conn_state st = S -> r = fade_out_all_leds 300 st) /\
  all_dark (store_of r) /\
  (forall led, last_hw led (trace_of r) = Some 0) /\
  flags (store_of r) = flags st.
Proof.
  cbv zeta. split; [|split; [|split; [|split]]].
  - intro Hne. rewrite usb_animation_handler_eq.
    apply Z.eqb_neq in Hne. rewrite Hne.
    split; [apply trace_usb_animation|].
    rewrite trace_usb_animation_any_store.
    split; [intro led; destruct led; vm_compute; reflexivity | vm_compute; reflexivity].
  - intro He. rewrite usb_animation_handler_eq.
    apply Z.eqb_eq in He. rewrite He. reflexivity.
  - intro led. apply ends_dark_usb_animation_handler.
  - intro led. apply ends_dark_usb_animation_handler.
  - rewrite usb_animation_handler_eq.
    destruct (usb_conn_state st =? S);
      [apply keeps_flags_fade_out_all_leds | apply keeps_flags_usb_animation].
Qed.

Lemma usb_animation_handler_run_witness :
  total_sleep (trace_of (usb_animation_handler 5 (initial_store 1))) = 2520 /\
  usb_animation_handler 5 (initial_store 5) = fade_out_all_leds 300 (initial_store 5).
Proof.
  split.
  - apply (proj1 (usb_animation_handler_run 5 (initial_store 1))). discriminate.
  - apply (proj1 (proj2 (usb_animation_handler_run 5 (initial_store 5)))). reflexivity.
Defined.

Lemma usb_connection_listener_eq ev st :
  usb_connection_listener (Some ev) st =
  (ZMK_EV_EVENT_BUBBLE,
   store_of (set_usb_conn_state (conn_state ev) st),
   [EvScheduleForQueue usb_conn_work K_NO_WAIT]).
Proof. reflexivity. Qed.

Lemma usb_connection_handler_powered P st :
  usb_conn_state st = P ->
  usb_connection_handler P st = (tt, st, [EvScheduleForQueue usb_animation_work K_NO_WAIT]).
Proof.
  intro H. unfold usb_connection_handler, bind. cbn [get_usb_conn_state].
  rewrite H, Z.eqb_refl. reflexivity.
Qed.

Lemma usb_connection_handler_other P st :
  usb_conn_state st <> P ->
  usb_connection_handler P st =
  (tt, store_of (set_is_connection_checking true st),
   [EvReschedule check_ble_conn_work (K_SECONDS 4)]).
Proof.
  intro H. apply Z.eqb_neq in H.
  unfold usb_connection_handler, bind. cbn [get_usb_conn_state].
  rewrite H. reflexivity.
Qed.

(** X11: a USB connection event, followed to the end.  The listener
    stores the new state and schedules the connection work.  That work, if
    the state is the powered code, only schedules the animation and leaves
    the checking flag alone; otherwise it marks the disconnect check
    active and reschedules it 4 s later, even when it was active already.
    The check that then runs clears the flag without blinking when the
    state is not the none code or BLE is connected; when the state is none
    and BLE is not connected its events are the blink of LED index 3
    written out (0..100, hold, the falling values from 100, hold, a sleep
    of 300/200 ms after every value) followed by the reschedule of the
    check 4000 ms later, and the flag stays set. *)
Theorem usb_connection_flow (NONE POWERED : Z) (ev : zmk_usb_conn_state_changed)
    (st : Store) :
  let l := usb_connection_listener (Some ev) st in
  let h := usb_connection_handler POWERED (store_of l) in
  trace_of l = [EvScheduleForQueue usb_conn_work 0] /\
  usb_conn_state (store_of l) = conn_state ev /\
  (conn_state ev = POWERED ->
   h = (tt, store_of l, [EvScheduleForQueue usb_animation_work 0])) /\
  (conn_state ev <> POWERED ->
   trace_of h = [EvReschedule check_ble_conn_work 4000] /\
   is_connection_checking (store_of h) = true /\
   (forall ble,
       ble = true \/ conn_state ev <> NONE ->
       let c := check_bluetooth_connection_handler NONE ble (store_of h) in
       trace_of c = [] /\ is_connection_checking (store_of c) = false) /\
   (conn_state ev = NONE ->
    let c := check_bluetooth_connection_handler NONE false (store_of h) in
    trace_of c = single_led_blink LED_4 (300 ÷ 200)
                 ++ [EvReschedule check_ble_conn_work 4000] /\
    is_connection_checking (store_of c) = true)).
Proof.
  cbv zeta. rewrite usb_connection_listener_eq.
  set (st1 := store_of (set_usb_conn_state (conn_state ev) st)).
  change (store_of (ZMK_EV_EVENT_BUBBLE, st1, [EvScheduleForQueue usb_conn_work K_NO_WAIT]))
    with st1.
  change (trace_of (ZMK_EV_EVENT_BUBBLE, st1, [EvScheduleForQueue usb_conn_work K_NO_WAIT]))
    with [EvScheduleForQueue usb_conn_work 0].
  assert (Hu : usb_conn_state st1 = conn_state ev) by reflexivity.
  clearbody st1.
  split; [reflexivity|]. split; [exact Hu|]. split.
  - intro Hp. apply usb_connection_handler_powered. congruence.
  - intro Hp. rewrite usb_connection_handler_other by congruence.
    set (st2 := store_of (set_is_connection_checking true st1)).
    change (store_of (tt, st2, [EvReschedule check_ble_conn_work (K_SECONDS 4)])) with st2.
    assert (Hf : is_connection_checking st2 = true) by reflexivity.
    assert (Hu2 : usb_conn_state st2 = conn_state ev) by exact Hu.
    clearbody st2.
    split; [reflexivity|]. split; [exact Hf|]. split.
    + intros ble Hconn. rewrite check_handler_connected.
      * split; reflexivity.
      * exact Hf.
      * destruct Hconn as [-> | Hn]; [reflexivity|].
        rewrite Hu2. apply Z.eqb_neq in Hn. rewrite Hn. apply orb_true_r.
    + intro Hn.
      assert (Hu3 : usb_conn_state st2 = NONE) by congruence.
      destruct (trace_check_handler_disconnected NONE st2 Hf Hu3) as [Ht Hc].
      split; [|exact Hc].
      apply blinked_and_rescheduled_explicit. exact Ht.
Qed.

Lemma usb_connection_flow_witness :
  trace_of (check_bluetooth_connection_handler 0 false
              (store_of (usb_connection_handler 1
                 (store_of (usb_connection_listener (Some (mkUsbConnStateChanged 2))
                              (initial_store 0)))))) = [] /\
  trace_of (check_bluetooth_connection_handler 0 false
              (store_of (usb_connection_handler 1
                 (store_of (usb_connection_listener (Some (mkUsbConnStateChanged 0))
                              (initial_store 1))))))
  = single_led_blink LED_4 (300 ÷ 200) ++ [EvReschedule check_ble_conn_work 4000].
Proof.
  split.
  - pose proof (proj2 (proj2 (proj2 (usb_connection_flow 0 1 (mkUsbConnStateChanged 2)
                                                         (initial_store 0))))) as H.
    assert (Hne : conn_state (mkUsbConnStateChanged 2) <> 1) by discriminate.
    apply (proj1 (proj2 (proj2 (H Hne))) false).
    right. discriminate.
  - pose proof (proj2 (proj2 (proj2 (usb_connection_flow 0 1 (mkUsbConnStateChanged 0)
                                                         (initial_store 1))))) as H.
    assert (Hne : conn_state (mkUsbConnStateChanged 0) <> 1) by discriminate.
    apply (proj1 (proj2 (proj2 (proj2 (H Hne))) eq_refl)).
Defined.

(** ** Further properties: invariants of everything that runs *)

Section ActivityClosure.

(** A property of operations that sequencing preserves and that holds of
    the quiet operations, of the blink and of the USB animation holds of
    every activity. *)
Variable P : forall A : Type, M A -> Prop.
Hypothesis P_bind : forall (A B : Type) (m : M A) (f : A -> M B),
  P A m -> (forall a, P B (f a)) -> P B (bind m f).
Hypothesis P_quiet : forall (A : Type) (m : M A), quiet m -> P A m.
Hypothesis P_blink : forall m c D, P unit (smooth_blink_leds m c D).
Hypothesis P_usb_animation : forall S, P unit (usb_animation_handler S).

Variable NONE : Z.
Variable POWERED : Z.
Variable SUSPEND : Z.

Lemma closure_battery_animation_handler level : P unit (battery_animation_handler level).
Proof.
  unfold battery_animation_handler.
  destruct (level <=? 15); [apply P_blink|].
  destruct (level <=? 30); [apply P_blink|].
  destruct (level <=? 50); [apply P_blink|].
  destruct (level <=? 80); apply P_blink.
Qed.

Lemma closure_ble_profile_handler : P unit ble_profile_handler.
Proof.
  unfold ble_profile_handler.
  apply P_bind; [apply P_quiet, quiet_get_profile_count_blink | intro profile].
  apply P_bind; [apply P_blink | intros _].
  apply P_bind; [apply P_quiet, quiet_get_is_connection_checking | intro checking].
  apply P_quiet, quiet_when.
  apply quiet_bind; [apply quiet_set_is_connection_checking | intros _].
  apply quiet_k_work_reschedule.
Qed.

Lemma closure_check_bluetooth_connection_handler ble :
  P unit (check_bluetooth_connection_handler NONE ble).
Proof.
  unfold check_bluetooth_connection_handler.
  apply P_bind; [apply P_quiet, quiet_get_is_connection_checking | intro checking].
  destruct (negb checking); [apply P_quiet, quiet_ret|].
  apply P_bind; [apply P_quiet, quiet_get_usb_conn_state | intro usb].
  destruct (ble || negb (usb =? NONE)); [apply P_quiet, quiet_set_is_connection_checking|].
  apply P_bind; [apply P_blink | intros _].
  apply P_quiet, quiet_k_work_reschedule.
Qed.

Lemma closure_run_activity a : P unit (run_activity NONE POWERED SUSPEND a).
Proof.
  destruct a; cbn [run_activity].
  - apply P_quiet, quiet_bind; [apply quiet_ble_profile_listener | intros _; apply quiet_ret].
  - apply P_quiet, quiet_bind; [apply quiet_usb_connection_listener | intros _; apply quiet_ret].
  - apply closure_ble_profile_handler.
  - apply P_quiet, quiet_usb_connection_handler.
  - apply P_usb_animation.
  - apply closure_battery_animation_handler.
  - apply closure_check_bluetooth_connection_handler.
  - apply P_quiet, quiet_show_battery.
  - apply P_quiet, quiet_hide_battery.
Qed.

Lemma closure_run_activities l : P unit (run_activities NONE POWERED SUSPEND l).
Proof.
  unfold run_activities. induction l as [|a l IH].
  - apply P_quiet, quiet_ret.
  - rewrite for_each_cons. apply P_bind; [apply closure_run_activity | intros _; exact IH].
Qed.

End ActivityClosure.

Lemma keeps_dark_bind {A B : Type} (m : M A) (f : A -> M B) :
  keeps_dark m -> (forall a, keeps_dark (f a)) -> keeps_dark (bind m f).
Proof.
  intros Hm Hf st Hd. rewrite store_bind. apply Hf, Hm, Hd.
Qed.

Lemma keeps_dark_blink_once m D : keeps_dark (blink_once m D).
Proof.
  intros st Hd led. destruct (in_mask m led) eqn:Hm.
  - apply blink_once_end. exact Hm.
  - rewrite (proj2 (silent_on_blink_once led m D Hm st)). apply Hd.
Qed.

Lemma keeps_dark_smooth_blink_leds m c D : keeps_dark (smooth_blink_leds m c D).
Proof.
  rewrite smooth_blink_leds_unfold. intros st Hd.
  apply (for_each_invariant all_dark); [|exact Hd].
  intros _ s _ Hs. apply keeps_dark_blink_once. exact Hs.
Qed.

Lemma tracks_hw_usb_animation_handler S : tracks_hw (usb_animation_handler S).
Proof.
  unfold usb_animation_handler.
  apply tracks_hw_bind; [apply quiet_tracks_hw, quiet_get_usb_conn_state | intro usb].
  destruct (usb =? S); [apply tracks_hw_fade_out_all_leds|].
  apply tracks_hw_bind.
  { apply tracks_hw_for_each. intro led.
    apply tracks_hw_bind; [apply tracks_hw_fade_in_led | intros _; apply tracks_hw_k_msleep]. }
  intros _. apply tracks_hw_bind; [apply tracks_hw_k_msleep | intros _].
  apply tracks_hw_fade_out_all_leds.
Qed.

Lemma keeps_percent_usb_animation_handler S : keeps_percent (usb_animation_handler S).
Proof.
  unfold usb_animation_handler.
  apply keeps_percent_bind; [apply quiet_keeps_percent, quiet_get_usb_conn_state | intro usb].
  destruct (usb =? S); [apply keeps_percent_fade_out_all_leds|].
  apply keeps_percent_bind.
  { apply keeps_percent_for_each. intros led _.
    apply keeps_percent_bind;
      [apply keeps_percent_fade_in_led | intros _; apply keeps_percent_k_msleep]. }
  intros _. apply keeps_percent_bind; [apply keeps_percent_k_msleep | intros _].
  apply keeps_percent_fade_out_all_leds.
Qed.

Lemma keeps_dark_run_activities N P S l : keeps_dark (run_activities N P S l).
Proof.
  apply (closure_run_activities (@keeps_dark)).
  - intros A B m f. apply keeps_dark_bind.
  - intros A m. apply quiet_keeps_dark.
  - apply keeps_dark_smooth_blink_leds.
  - intro S'. apply ends_dark_keeps_dark, ends_dark_usb_animation_handler.
Qed.

Lemma tracks_hw_run_activities N P S l : tracks_hw (run_activities N P S l).
Proof.
  apply (closure_run_activities (@tracks_hw)).
  - intros A B m f. apply tracks_hw_bind.
  - intros A m. apply quiet_tracks_hw.
  - apply tracks_hw_smooth_blink_leds.
  - apply tracks_hw_usb_animation_handler.
Qed.

Lemma keeps_percent_run_activities N P S l : keeps_percent (run_activities N P S l).
Proof.
  apply (closure_run_activities (@keeps_percent)).
  - intros A B m f. apply keeps_percent_bind.
  - intros A m. apply quiet_keeps_percent.
  - apply keeps_percent_smooth_blink_leds.
  - apply keeps_percent_usb_animation_handler.
Qed.

Lemma in_sync_step {A : Type} (m : M A) tr st :
  tracks_hw m -> in_sync tr st ->
  in_sync (tr ++ trace_of (m st)) (store_of (m st)).
Proof.
  intros Hm Hs led. unfold last_hw.
  rewrite hw_writes_app, last_error_app.
  specialize (Hm st led). specialize (Hs led). unfold last_hw in Hs.
  destruct (last_error (hw_writes led (trace_of (m st)))) as [w|].
  - cbn [option_map]. rewrite Hm. reflexivity.
  - rewrite Hm. exact Hs.
Qed.

(** X12: invariants of every sequence of activities (listener calls,
    work items and public triggers, one after the other), from any store.
    Cached brightness values within [0,100] stay there, only values within
    [0,100] reach the driver and no brightness argument is changed by its
    conversion; the cache of every LED that was written equals the level
    last written to its hardware; and if all LEDs are dark before, they
    are dark after: every animation cleans up after itself. *)
Theorem activities_keep_invariants (NONE POWERED SUSPEND : Z) (acts : list Activity)
    (tr : list Event) (st : Store) :
  let r := run_activities NONE POWERED SUSPEND acts st in
  (cache_bounded st ->
   cache_bounded (store_of r) /\ Forall write_in_range (trace_of r) /\
   narrowing_lost (store_of r) = narrowing_lost st) /\
  (coherent tr st -> coherent (tr ++ trace_of r) (store_of r)) /\
  (all_dark st -> all_dark (store_of r)).
Proof.
  cbv zeta. split; [|split].
  - apply keeps_percent_run_activities.
  - apply coherent_step, tracks_hw_run_activities.
  - apply keeps_dark_run_activities.
Qed.

Lemma activities_keep_invariants_witness :
  all_dark (store_of (run_activities 0 1 5
                        [UsbEvent (Some (mkUsbConnStateChanged 1)); RunUsbConnWork;
                         RunUsbAnimationWork; RunBatteryAnimationWork 42]
                        (initial_store 0))).
Proof.
  apply (proj2 (proj2 (activities_keep_invariants 0 1 5
                         [UsbEvent (Some (mkUsbConnStateChanged 1)); RunUsbConnWork;
                          RunUsbAnimationWork; RunBatteryAnimationWork 42]
                         [] (initial_store 0)))).
  intro led. reflexivity.
Defined.

Lemma initialize_leds_calls st :
  init_calls (snd (initialize_leds st)) =
  trace_of (turn_off_all_leds st)
  ++ [EvScheduleForQueue battery_animation_work (K_SECONDS 1)].
Proof. reflexivity. Qed.

Lemma initialize_leds_in_sync st :
  all_dark st -> in_sync (init_calls (snd (initialize_leds st))) (snd (fst (initialize_leds st))).
Proof.
  intros Hd led. rewrite initialize_leds_calls.
  change (snd (fst (initialize_leds st))) with st.
  unfold last_hw. rewrite hw_writes_app. cbn [hw_writes]. rewrite app_nil_r.
  rewrite Hd. destruct led; reflexivity.
Qed.

(** X13: from power-on.  [initialize_leds] returns 0, switches every LED
    off, sets up the queue and schedules the battery animation 1 s later
    without changing any global.  After it and any sequence of activities
    every LED is dark in the cache, the level last written to the hardware
    of every LED is 0, only values within [0,100] were sent to the driver
    and no brightness argument was changed by its conversion: between
    activities the LEDs are always off. *)
Theorem leds_off_between_activities (NONE POWERED SUSPEND usb0 : Z) (acts : list Activity) :
  let boot := initialize_leds (initial_store usb0) in
  let r := run_activities NONE POWERED SUSPEND acts (snd (fst boot)) in
  boot = (0, initial_store usb0,
          map InitCall (map EvLedOff all_leds)
          ++ [EvWorkQueueInit; EvWorkQueueStart 5;
              InitCall (EvScheduleForQueue battery_animation_work 1000)]) /\
  all_dark (store_of r) /\
  (forall led, last_hw led (init_calls (snd boot) ++ trace_of r) = Some 0) /\
  Forall write_in_range (trace_of r) /\
  narrowing_lost (store_of r) = false.
Proof.
  cbv zeta. split; [reflexivity|].
  assert (Hd : all_dark (initial_store usb0)) by (intro led; reflexivity).
  assert (Hb : cache_bounded (initial_store usb0)) by (intro led; cbn; lia).
  change (snd (fst (initialize_leds (initial_store usb0)))) with (initial_store usb0).
  pose proof (keeps_dark_run_activities NONE POWERED SUSPEND acts _ Hd) as Hd'.
  destruct (keeps_percent_run_activities NONE POWERED SUSPEND acts _ Hb) as [_ [Hr Hn]].
  split; [exact Hd'|]. split; [|split; [exact Hr | exact Hn]].
  intro led.
  pose proof (in_sync_step (run_activities NONE POWERED SUSPEND acts) _ _
                (tracks_hw_run_activities NONE POWERED SUSPEND acts)
                (initialize_leds_in_sync _ Hd) led) as Hs.
  change (snd (fst (initialize_leds (initial_store usb0)))) with (initial_store usb0) in Hs.
  rewrite Hs, Hd'. reflexivity.
Qed.

(** ** Further properties: who writes to LED index 3 *)

Lemma ble_profile_handler_profile st :
  profile_count_blink (store_of (ble_profile_handler st)) = profile_count_blink st /\
  usb_conn_state (store_of (ble_profile_handler st)) = usb_conn_state st.
Proof.
  unfold ble_profile_handler.
  rewrite store_bind.
  cbn [get_profile_count_blink store_of value_of fst snd].
  rewrite store_bind.
  pose proof (keeps_flags_smooth_blink_leds
                (to_uint8 (Z.shiftr 8 (profile_count_blink st))) 1
                FADE_DURATION_PROFILE_MS st) as Hf.
  set (s1 := store_of (smooth_blink_leds _ 1 FADE_DURATION_PROFILE_MS st)) in *.
  unfold flags in Hf. injection Hf as Hc Hu Hp.
  rewrite store_bind.
  cbn [get_is_connection_checking store_of value_of fst snd].
  destruct (is_connection_checking s1); cbn [negb when]; split; assumption.
Qed.

Lemma keeps_flags_battery_animation_handler level :
  keeps_flags (battery_animation_handler level).
Proof.
  unfold battery_animation_handler.
  destruct (level <=? 15); [apply keeps_flags_smooth_blink_leds|].
  destruct (level <=? 30); [apply keeps_flags_smooth_blink_leds|].
  destruct (level <=? 50); [apply keeps_flags_smooth_blink_leds|].
  destruct (level <=? 80); apply keeps_flags_smooth_blink_leds.
Qed.

Lemma silent_on_battery_animation_handler level :
  silent_on LED_4 (battery_animation_handler level).
Proof.
  unfold battery_animation_handler.
  destruct (level <=? 15); [apply silent_on_smooth_blink_leds; reflexivity|].
  destruct (level <=? 30); [apply silent_on_smooth_blink_leds; reflexivity|].
  destruct (level <=? 50); [apply silent_on_smooth_blink_leds; reflexivity|].
  destruct (level <=? 80); apply silent_on_smooth_blink_leds; reflexivity.
Qed.

Lemma ble_profile_handler_spares_last_led st :
  0 <= profile_count_blink st <= 2 ->
  hw_writes LED_4 (trace_of (ble_profile_handler st)) = [] /\
  led_brightness (store_of (ble_profile_handler st)) LED_4 = led_brightness st LED_4.
Proof.
  intro Hp. destruct (ble_profile_handler_eq st) as [Ht [_ Hc]].
  assert (Hm : in_mask (profile_mask (profile_count_blink st)) LED_4 = false).
  { rewrite profile_mask_in_mask by lia. apply Z.eqb_neq. cbn. lia. }
  destruct (silent_on_smooth_blink_leds LED_4 _ 1 FADE_DURATION_PROFILE_MS Hm st)
    as [Hw Hs].
  split.
  - rewrite Ht, hw_writes_app, Hw. destruct (is_connection_checking st); reflexivity.
  - rewrite Hc. exact Hs.
Qed.

Lemma activity_spares_last_led N P S a st :
  may_use_last_led a = false ->
  event_well_formed a ->
  0 <= profile_count_blink st <= 2 ->
  hw_writes LED_4 (trace_of (run_activity N P S a st)) = [] /\
  led_brightness (store_of (run_activity N P S a st)) LED_4 = led_brightness st LED_4 /\
  0 <= profile_count_blink (store_of (run_activity N P S a st)) <= 2.
Proof.
  intros Hu Hw Hp.
  destruct a as [ev | ev | | | | level | ble | |]; cbn [run_activity may_use_last_led] in *;
    try discriminate Hu.
  - assert (Hq : quiet (ble_profile_listener ev ;; ret tt))
      by (apply quiet_bind; [apply quiet_ble_profile_listener | intros _; apply quiet_ret]).
    destruct (quiet_silent_on _ LED_4 Hq st) as [H1 H2].
    split; [exact H1|]. split; [exact H2|].
    rewrite store_bind. cbn [ret store_of fst snd].
    destruct ev as [ev|]; [|exact Hp].
    cbn [event_well_formed] in Hw.
    destruct (Z.le_gt_cases (index ev) 2) as [Hi | Hi].
    + rewrite ble_profile_listener_accepted by exact Hi. cbn. lia.
    + rewrite ble_profile_listener_ignored by lia. exact Hp.
  - assert (Hq : quiet (usb_connection_listener ev ;; ret tt))
      by (apply quiet_bind; [apply quiet_usb_connection_listener | intros _; apply quiet_ret]).
    destruct (quiet_silent_on _ LED_4 Hq st) as [H1 H2].
    split; [exact H1|]. split; [exact H2|].
    destruct ev; exact Hp.
  - destruct (ble_profile_handler_spares_last_led st Hp) as [H1 H2].
    split; [exact H1|]. split; [exact H2|].
    rewrite (proj1 (ble_profile_handler_profile st)). exact Hp.
  - destruct (quiet_silent_on _ LED_4 (quiet_usb_connection_handler P) st) as [H1 H2].
    split; [exact H1|]. split; [exact H2|].
    unfold usb_connection_handler, bind. cbn [get_usb_conn_state].
    destruct (usb_conn_state st =? P); exact Hp.
  - destruct (silent_on_battery_animation_handler level st) as [H1 H2].
    split; [exact H1|]. split; [exact H2|].
    pose proof (keeps_flags_battery_animation_handler level st) as Hf.
    unfold flags in Hf. injection Hf as _ _ Hf. rewrite Hf. exact Hp.
  - split; [reflexivity|]. split; [reflexivity|]. exact Hp.
  - split; [reflexivity|]. split; [reflexivity|]. exact Hp.
Qed.

(** X14: LED index 3 belongs to the disconnect check and the USB
    animation.  Starting with a stored profile index within [0,2] (it is 1
    at power-on), any sequence of activities that contains neither the
    disconnect-check work nor the USB animation work, with profile events
    carrying [uint8_t] indices, sends nothing to LED index 3, leaves its
    cache entry as it was, and keeps the stored profile index within
    [0,2]. *)
Theorem last_led_reserved (NONE POWERED SUSPEND : Z) (acts : list Activity) (st : Store) :
  0 <= profile_count_blink st <= 2 ->
  Forall event_well_formed acts ->
  existsb may_use_last_led acts = false ->
  let r := run_activities NONE POWERED SUSPEND acts st in
  hw_writes LED_4 (trace_of r) = [] /\
  led_brightness (store_of r) LED_4 = led_brightness st LED_4 /\
  0 <= profile_count_blink (store_of r) <= 2.
Proof.
  intros Hp Hw Hu. cbv zeta. unfold run_activities.
  revert st Hp. induction acts as [|a acts IH]; intros st Hp.
  - split; [reflexivity|]. split; [reflexivity | exact Hp].
  - cbn [existsb] in Hu. apply orb_false_iff in Hu as [Ha Hu].
    inversion Hw as [|a' acts' Hwa Hwacts]; subst.
    destruct (activity_spares_last_led NONE POWERED SUSPEND a st Ha Hwa Hp) as [H1 [H2 H3]].
    destruct (IH Hwacts Hu _ H3) as [H4 [H5 H6]].
    rewrite trace_for_each_cons, store_for_each_cons, hw_writes_app, H1, H4, H5, H2.
    split; [reflexivity|]. split; [reflexivity | exact H6].
Qed.

Lemma last_led_reserved_witness :
  hw_writes LED_4
    (trace_of (run_activities 0 1 5
                 [ProfileEvent (Some (mkProfileChanged 2)); RunBleProfileWork;
                  RunBatteryAnimationWork 90]
                 (initial_store 0))) = [].
Proof.
  apply (last_led_reserved 0 1 5
           [ProfileEvent (Some (mkProfileChanged 2)); RunBleProfileWork;
            RunBatteryAnimationWork 90]
           (initial_store 0)).
  - simpl. lia.
  - repeat constructor; simpl; lia.
  - reflexivity.
Defined.

(** ** Further properties: the frame of the disconnect check *)

Lemma smooth_blink_leds_masked_end m c D st led :
  0 < c -> in_mask m led = true ->
  led_brightness (store_of (smooth_blink_leds m c D st)) led = LED_STATUS_OFF /\
  last_hw led (trace_of (smooth_blink_leds m c D st)) = Some LED_STATUS_OFF.
Proof.
  intros Hc Hm. rewrite smooth_blink_leds_unfold.
  destruct (range_up_count_snoc c Hc) as [l ->].
  apply (blink_loop_end m D led l (c - 1) st Hm).
Qed.

Lemma keeps_flags_fields {A : Type} (m : M A) :
  keeps_flags m ->
  forall st,
    is_connection_checking (store_of (m st)) = is_connection_checking st /\
    usb_conn_state (store_of (m st)) = usb_conn_state st /\
    profile_count_blink (store_of (m st)) = profile_count_blink st.
Proof.
  intros Hm st. specialize (Hm st). unfold flags in Hm.
  generalize dependent (store_of (m st)). intros s Hs.
  injection Hs as H1 H2 H3. repeat split; assumption.
Qed.

Lemma store_k_work_reschedule w d s : store_of (k_work_reschedule w d s) = s.
Proof. reflexivity. Qed.

Lemma hw_writes_k_work_reschedule led w d s :
  hw_writes led (trace_of (k_work_reschedule w d s)) = [].
Proof. reflexivity. Qed.

Lemma check_handler_cases NONE ble st :
  check_bluetooth_connection_handler NONE ble st = (tt, st, []) \/
  check_bluetooth_connection_handler NONE ble st = set_is_connection_checking false st \/
  (is_connection_checking st = true /\
   check_bluetooth_connection_handler NONE ble st =
   (smooth_blink_leds 1 1 FADE_DURATION_DISCONNECT_MS ;;
    k_work_reschedule check_ble_conn_work (K_SECONDS 4)) st).
Proof.
  destruct (is_connection_checking st) eqn:Hc.
  - destruct (ble || negb (usb_conn_state st =? NONE)) eqn:Hconn.
    + right; left. apply check_handler_connected; assumption.
    + right; right. split; [reflexivity|]. apply check_handler_disconnected; assumption.
  - left. apply check_handler_idle. exact Hc.
Qed.

(** X15: the frame of [check_bluetooth_connection_handler], in every
    case: LED indices 0, 1 and 2 get no driver call and keep their cache
    entry, LED index 3 is dark afterwards if it was dark before, the USB
    state and the profile index are untouched, and the checking flag is
    never set by the handler: it is set afterwards only if it was set
    before. *)
Theorem check_handler_frame (NONE : Z) (ble : bool) (st : Store) :
  let r := check_bluetooth_connection_handler NONE ble st in
  Forall (fun led =>
            hw_writes led (trace_of r) = [] /\
            led_brightness (store_of r) led = led_brightness st led)
         [LED_1; LED_2; LED_3] /\
  (led_brightness st LED_4 = 0 -> led_brightness (store_of r) LED_4 = 0) /\
  usb_conn_state (store_of r) = usb_conn_state st /\
  profile_count_blink (store_of r) = profile_count_blink st /\
  (is_connection_checking (store_of r) = true -> is_connection_checking st = true).
Proof.
  cbv zeta.
  destruct (check_handler_cases NONE ble st) as [E | [E | [Hc E]]]; rewrite E.
  - split; [repeat (apply Forall_cons; [split; reflexivity|]); apply Forall_nil|].
    repeat split; auto.
  - split; [repeat (apply Forall_cons; [split; reflexivity|]); apply Forall_nil|].
    split; [auto|]. split; [reflexivity|]. split; [reflexivity|]. intro H; discriminate H.
  - rewrite trace_bind, store_bind, store_k_work_reschedule.
    pose proof (fun k H => silent_on_smooth_blink_leds k 1 1 FADE_DURATION_DISCONNECT_MS H st)
      as Hframe.
    destruct (keeps_flags_fields _ (keeps_flags_smooth_blink_leds 1 1
                                      FADE_DURATION_DISCONNECT_MS) st) as [Hf1 [Hf2 Hf3]].
    split.
    { repeat (apply Forall_cons;
              [rewrite hw_writes_app, hw_writes_k_work_reschedule, app_nil_r;
               apply Hframe; reflexivity|]).
      apply Forall_nil. }
    split.
    { intros _.
      apply (smooth_blink_leds_masked_end 1 1 FADE_DURATION_DISCONNECT_MS st LED_4);
        [lia | reflexivity]. }
    split; [exact Hf2|]. split; [exact Hf3|]. intros _. exact Hc.
Qed.

Lemma check_handler_frame_witness :
  led_brightness (store_of (check_bluetooth_connection_handler 0 false (checking_store 0)))
                 LED_4 = 0.
Proof.
  apply (proj1 (proj2 (check_handler_frame 0 false (checking_store 0)))). reflexivity.
Defined.

(** ** Further properties: composing blinks, fading out in the dark *)

Lemma bind_assoc {A B C : Type} (m : M A) (f : A -> M B) (g : B -> M C) st :
  bind (bind m f) g st = bind m (fun a => bind (f a) g) st.
Proof.
  unfold bind.
  destruct (m st) as [[a s1] t1]. destruct (f a s1) as [[b s2] t2].
  destruct (g b s2) as [[c s3] t3]. rewrite app_assoc. reflexivity.
Qed.

Lemma for_each_app {A : Type} (l1 l2 : list A) (body : A -> M unit) : forall st,
  for_each (l1 ++ l2) body st = (for_each l1 body ;; for_each l2 body) st.
Proof.
  induction l1 as [|x l1 IH]; intro st.
  - cbn [app for_each]. unfold bind, ret.
    destruct (for_each l2 body st) as [[[] s] t]. reflexivity.
  - cbn [app]. rewrite !for_each_cons, bind_assoc.
    apply bind_ext; [reflexivity | intros _ s; apply IH].
Qed.

Lemma for_each_const {A B : Type} (m : M unit) (l : list A) : forall (l' : list B) st,
  length l = length l' ->
  for_each l (fun _ => m) st = for_each l' (fun _ => m) st.
Proof.
  induction l as [|x l IH]; intros [|y l'] st Hlen; try discriminate Hlen.
  - reflexivity.
  - rewrite !for_each_cons. apply bind_ext; [reflexivity|].
    intros _ s. apply IH. injection Hlen as Hlen. exact Hlen.
Qed.

(** X16: blinks compose.  For repeat counts that are not negative,
    [smooth_blink_leds] with count [a] followed by [smooth_blink_leds] with
    count [b] (same mask and duration) gives the same events and the same
    store as one call with count [a + b]. *)
Theorem smooth_blink_leds_compose (m a b D : Z) (st : Store) :
  0 <= a -> 0 <= b ->
  (smooth_blink_leds m a D ;; smooth_blink_leds m b D) st = smooth_blink_leds m (a + b) D st.
Proof.
  intros Ha Hb. rewrite !smooth_blink_leds_unfold.
  rewrite <- for_each_app. apply for_each_const.
  rewrite length_app, !range_up_count_length. lia.
Qed.

Lemma smooth_blink_leds_compose_witness :
  (smooth_blink_leds 8 1 800 ;; smooth_blink_leds 8 2 800) (initial_store 0)
  = smooth_blink_leds 8 (1 + 2) 800 (initial_store 0).
Proof.
  apply (smooth_blink_leds_compose 8 1 2 800 (initial_store 0)); lia.
Defined.

Lemma decay_zero js : decay 0 js = repeat 0 (length js).
Proof.
  induction js as [|j js IH]; [reflexivity|].
  cbn [decay length repeat]. change (0 * j ÷ LED_FADE_STEPS) with 0.
  rewrite IH. reflexivity.
Qed.

(** X17: fading out in the dark.  When an LED is cached as dark,
    [fade_out_all_leds] still sends it 101 brightness values, all of them
    0, and sleeps as long as for a lit LED. *)
Theorem fade_out_all_leds_dark (led : LedType) (D : Z) (st : Store) :
  led_brightness st led = 0 ->
  writes_to led (trace_of (fade_out_all_leds D st)) = repeat 0 101 /\
  total_sleep (trace_of (fade_out_all_leds D st)) = 101 * (D ÷ 100).
Proof.
  intro Hd. split; [|apply total_sleep_fade_out_all_leds].
  rewrite writes_to_fade_out_all_leds by (rewrite Hd; lia).
  rewrite Hd, decay_zero. reflexivity.
Qed.

Lemma fade_out_all_leds_dark_witness :
  writes_to LED_3 (trace_of (fade_out_all_leds 300 (initial_store 0))) = repeat 0 101.
Proof.
  apply (proj1 (fade_out_all_leds_dark LED_3 300 (initial_store 0) eq_refl)).
Defined.
